(** * Roborock integration: coordinator, entities and config flow

    A shallow embedding of
      homeassistant/components/roborock/coordinator.py
      homeassistant/components/roborock/device.py
      homeassistant/components/roborock/config_flow.py
    Every method is an action of a state-and-exception monad.  Calls into
    the vendor library (package [roborock]) are answered by an oracle that
    sees the history of interactions, and every interaction with a vendor
    object is appended to that history. *)

From Stdlib Require Import ZArith Lia.
From stdpp Require Import base option list gmap strings.

Local Open Scope string_scope.
Local Open Scope list_scope.

(** ** Vendor value objects *)

(** Fields of a vendor dataclass that this code never reads. *)
Definition Payload := list (string * Z).

Record Status := { map_status : option Z; status_fields : Payload }.
Record CleanSummary := { clean_summary_fields : Payload }.
Record Consumable := { consumable_fields : Payload }.

(** roborock.roborock_typing.DeviceProp; [DeviceProp()] has every field None. *)
Record DeviceProp := {
  status : option Status;
  clean_summary : option CleanSummary;
  consumable : option Consumable;
  prop_fields : Payload
}.

Definition DeviceProp_new : DeviceProp :=
  {| status := None; clean_summary := None; consumable := None; prop_fields := [] |}.

(** Members of the vendor enum, by name. *)
Definition CacheableAttribute := string.

Record MultiMapsListMapInfo := { name : string; mapFlag : Z }.
Record MultiMapsList := { map_info : option (list MultiMapsListMapInfo) }.

(** [RoborockCommand | str] *)
Inductive Command :=
| CommandEnum (member : string)
| CommandStr (s : string).

(** [dict[str, Any] | list[Any] | int | None] *)
Inductive Params :=
| ParamsDict (d : Payload)
| ParamsList (l : list Z)
| ParamsInt (n : Z)
| ParamsNone.

Record UserData := { user_data_fields : Payload }.

(** A client object is known by its identity and its class; the class of an
    object never changes, so it is part of the reference. *)
Inductive ClientRef :=
| RoborockLocalClient (id : nat)
| RoborockMqttClient (id : nat).

#[global] Instance ClientRef_eq_dec : EqDecision ClientRef.
Proof. solve_decision. Defined.

(** [isinstance(r, RoborockLocalClient)] *)
Definition isinstance_RoborockLocalClient (r : ClientRef) : bool :=
  match r with
  | RoborockLocalClient _ => true
  | RoborockMqttClient _ => false
  end.

(** ** Exceptions *)

(** [UpdateFailed(ex)] wraps the vendor exception, [UpdateFailed("...")] a text. *)
Inductive UpdateFailedArg :=
| OfException (detail : string)
| OfMessage (msg : string).

(** The keyword arguments of the [HomeAssistantError] built in [send]; the
    message and the "params" placeholder are renderings of [err_command] and
    [err_params]. *)
Record CommandError := {
  err_command : Command;
  err_params : Params;
  translation_domain : string;
  translation_key : string;
  placeholder_command : string;
  err_cause : string
}.

Inductive exn :=
| RoborockException (detail : string)
| UpdateFailed (arg : UpdateFailedArg)
| HomeAssistantError (err : CommandError)
| KeyError (key : string)
| AssertionError
| OtherException (class_name : string).

Inductive result (A : Type) :=
| Returned (a : A)
| Raised (e : exn).
Arguments Returned {A} a.
Arguments Raised {A} e.

(** What a vendor call can do: return, raise [RoborockException] (or a
    subclass), or raise an exception of another class. *)
Inductive reply (A : Type) :=
| Returns (a : A)
| RaisesRoborock (detail : string)
| RaisesOther (class_name : string).
Arguments Returns {A} a.
Arguments RaisesRoborock {A} detail.
Arguments RaisesOther {A} class_name.

Definition reply_result {A} (r : reply A) : result A :=
  match r with
  | Returns a => Returned a
  | RaisesRoborock d => Raised (RoborockException d)
  | RaisesOther n => Raised (OtherException n)
  end.

(** ** Interactions with vendor objects *)

Inductive Event :=
| Ping (c : ClientRef)
| AsyncDisconnect (c : ClientRef)
| GetProp (c : ClientRef)
| AsyncValue (c : ClientRef) (key : CacheableAttribute)
| GetMultiMapsList (c : ClientRef)
| SendCommand (c : ClientRef) (command : Command) (params : Params)
| SetIsAvailable (c : ClientRef) (b : bool)
| PropUpdate (stored fetched : DeviceProp)
| CodeLogin (username code : string).

(** The vendor library.  An asynchronous call is answered from the history
    of interactions before it, and so is the read of [base_url]; the [_bool]
    entries are the truth value of an instance, [DeviceProp_update] is
    [DeviceProp.update] as a function of the stored and the fetched value. *)
Record Vendor := {
  ping : list Event -> ClientRef -> reply unit;
  async_disconnect : list Event -> ClientRef -> reply unit;
  get_prop : list Event -> ClientRef -> reply (option DeviceProp);
  async_value : list Event -> ClientRef -> CacheableAttribute -> reply Payload;
  get_multi_maps_list : list Event -> ClientRef -> reply (option MultiMapsList);
  send_command : list Event -> ClientRef -> Command -> Params -> reply Payload;
  code_login : list Event -> string -> string -> reply UserData;
  base_url : list Event -> string -> string;
  DeviceProp_bool : DeviceProp -> bool;
  DeviceProp_update : DeviceProp -> DeviceProp -> DeviceProp;
  UserData_bool : UserData -> bool
}.

(** ** The monad *)

Definition M (S A : Type) : Type := S -> result A * S.

Definition ret {S A} (a : A) : M S A := fun s => (Returned a, s).

Definition bind {S A B} (m : M S A) (k : A -> M S B) : M S B :=
  fun s =>
    match m s with
    | (Returned a, s') => k a s'
    | (Raised e, s') => (Raised e, s')
    end.

Definition raise {S A} (e : exn) : M S A := fun s => (Raised e, s).

Definition get {S} : M S S := fun s => (Returned s, s).

Definition modify {S} (f : S -> S) : M S unit := fun s => (Returned tt, f s).

Declare Scope py_scope.
Delimit Scope py_scope with py.
Notation "x <- m ;; k" := (bind m (fun x => k))
  (at level 100, m at next level, right associativity) : py_scope.
Notation "m ;; k" := (bind m (fun _ => k))
  (at level 100, right associativity) : py_scope.
Local Open Scope py_scope.

(** [try: body / except RoborockException as ex: handler ex] *)
Definition except_RoborockException {S A}
    (body : M S A) (handler : string -> M S A) : M S A :=
  fun s =>
    match body s with
    | (Raised (RoborockException d), s') => handler d s'
    | other => other
    end.

(** The classes of the standard library that derive from [BaseException]
    and not from [Exception]; [CancelledError] is that of asyncio. *)
Definition BaseException_only : list string :=
  ["BaseException"; "BaseExceptionGroup"; "GeneratorExit"; "KeyboardInterrupt";
   "SystemExit"; "CancelledError"].

(** [isinstance(e, Exception)]: the classes this code and the vendor define
    derive from [Exception]; an exception of another class is known by the
    name of its class. *)
Definition isinstance_Exception (e : exn) : bool :=
  match e with
  | OtherException class_name =>
      negb (existsb (String.eqb class_name) BaseException_only)
  | _ => true
  end.
Arguments isinstance_Exception : simpl never.

(** [try: body / except RoborockException: h1 / except Exception: h2]: an
    exception that is not an [Exception] is caught by neither clause. *)
Definition except_RoborockException_Exception {S A}
    (body : M S A) (h1 h2 : M S A) : M S A :=
  fun s =>
    match body s with
    | (Raised (RoborockException _), s') => h1 s'
    | (Raised e, s') => if isinstance_Exception e then h2 s' else (Raised e, s')
    | other => other
    end.

(** A state that records the interactions with the vendor. *)
Class Traced (S : Type) := {
  history : S -> list Event;
  record : Event -> S -> S
}.

(** Await a vendor call: the oracle answers from the history so far, and the
    call is recorded whether it returns or raises. *)
Definition await {S A} `{Traced S} (ev : Event) (answer : list Event -> reply A)
    : M S A :=
  fun s => (reply_result (answer (history s)), record ev s).

(** [for x in xs: body x] *)
Fixpoint for_each {S A} (xs : list A) (body : A -> M S unit) : M S unit :=
  match xs with
  | [] => ret tt
  | x :: rest => body x ;; for_each rest body
  end.

(** [await asyncio.gather] over the awaitables [aws]: every awaitable is
    run, in the order given (the order in which the event loop starts them);
    the first exception is raised to the caller while the remaining ones
    still run. *)
Fixpoint gather {S A} (aws : list (M S A)) : M S (list A) :=
  match aws with
  | [] => ret []
  | aw :: rest =>
      fun s =>
        match aw s with
        | (Returned a, s') => (others <- gather rest ;; ret (a :: others)) s'
        | (Raised e, s') => (Raised e, snd (gather rest s'))
        end
  end.

(** ** coordinator.py *)

(** [props] and [data] hold values: [data] is the value the object assigned
    to it had at the assignment, and a later change of that object in place
    shows in [props] only. *)
Record Coordinator := {
  props : DeviceProp;                  (* roborock_device_info.props *)
  api : ClientRef;
  cloud_api : ClientRef;
  needed_cache_keys : list CacheableAttribute;
  current_map : option Z;
  maps : gmap string Z;
  data : option DeviceProp             (* DataUpdateCoordinator.data *)
}.

(** The coordinator, the [is_available] attribute of every client object,
    and the interactions so far.  The attribute store a method starts from is
    arbitrary (the vendor library writes the attribute too); during a method
    only the method's own write changes it. *)
Record World := {
  coordinator : Coordinator;
  is_available : ClientRef -> bool;
  trace : list Event
}.

Definition with_coordinator (f : Coordinator -> Coordinator) (w : World) : World :=
  {| coordinator := f (coordinator w);
     is_available := is_available w;
     trace := trace w |}.

Definition set_props (p : DeviceProp) (c : Coordinator) : Coordinator :=
  {| props := p; api := api c; cloud_api := cloud_api c;
     needed_cache_keys := needed_cache_keys c; current_map := current_map c;
     maps := maps c; data := data c |}.

Definition set_api (r : ClientRef) (c : Coordinator) : Coordinator :=
  {| props := props c; api := r; cloud_api := cloud_api c;
     needed_cache_keys := needed_cache_keys c; current_map := current_map c;
     maps := maps c; data := data c |}.

Definition set_current_map (m : option Z) (c : Coordinator) : Coordinator :=
  {| props := props c; api := api c; cloud_api := cloud_api c;
     needed_cache_keys := needed_cache_keys c; current_map := m;
     maps := maps c; data := data c |}.

Definition set_maps (m : gmap string Z) (c : Coordinator) : Coordinator :=
  {| props := props c; api := api c; cloud_api := cloud_api c;
     needed_cache_keys := needed_cache_keys c; current_map := current_map c;
     maps := m; data := data c |}.

Definition set_data (d : option DeviceProp) (c : Coordinator) : Coordinator :=
  {| props := props c; api := api c; cloud_api := cloud_api c;
     needed_cache_keys := needed_cache_keys c; current_map := current_map c;
     maps := maps c; data := d |}.

#[global] Instance World_Traced : Traced World := {|
  history := trace;
  record ev w :=
    {| coordinator := coordinator w;
       is_available := is_available w;
       trace := trace w ++ [ev] |}
|}.

(** [client.is_available = b] *)
Definition store_is_available (r : ClientRef) (b : bool) (w : World) : World :=
  {| coordinator := coordinator w;
     is_available := fun r' => if decide (r' = r) then b else is_available w r';
     trace := trace w ++ [SetIsAvailable r b] |}.

Module RoborockDataUpdateCoordinator.
Section Methods.
Variable V : Vendor.

Definition self : M World Coordinator := fun w => (Returned (coordinator w), w).

(** [__init__]: a new local client (object [local_id]) becomes [api]. *)
Definition __init__ (local_id : nat) (cloud : ClientRef) : Coordinator :=
  {| props := DeviceProp_new;
     api := RoborockLocalClient local_id;
     cloud_api := cloud;
     needed_cache_keys := [];
     current_map := None;
     maps := ∅;
     data := None |}.

Definition verify_api : M World unit :=
  c <- self ;;
  if isinstance_RoborockLocalClient (api c) then
    except_RoborockException
      (await (Ping (api c)) (fun h => ping V h (api c)))
      (fun _ =>
         c <- self ;;
         modify (with_coordinator (set_api (cloud_api c))))
  else ret tt.

Definition release : M World unit :=
  c <- self ;;
  await (AsyncDisconnect (api c)) (fun h => async_disconnect V h (api c)).

(** [self.api.cache] has an entry for every [CacheableAttribute]. *)
Definition _recover : M World unit :=
  c <- self ;;
  gather (map (fun key => await (AsyncValue (api c) key)
                                (fun h => async_value V h (api c) key))
              (needed_cache_keys c)) ;;
  ret tt.

Definition _update_device_prop : M World unit :=
  c <- self ;;
  device_prop <- await (GetProp (api c)) (fun h => get_prop V h (api c)) ;;
  match device_prop with
  | Some fetched =>
      if DeviceProp_bool V fetched then
        c <- self ;;
        if DeviceProp_bool V (props c) then
          modify (record (PropUpdate (props c) fetched)) ;;
          modify (with_coordinator
                    (set_props (DeviceProp_update V (props c) fetched)))
        else
          modify (with_coordinator (set_props fetched))
      else ret tt
  | None => ret tt
  end.

Definition _set_current_map : M World unit :=
  c <- self ;;
  match status (props c) with
  | Some st =>
      match map_status st with
      | Some m =>
          modify (with_coordinator (set_current_map (Some ((m - 3) `div` 4)%Z)))
      | None => ret tt
      end
  | None => ret tt
  end.

Definition needed_prop_is_None (p : DeviceProp) : bool :=
  bool_decide (consumable p = None)
  || bool_decide (clean_summary p = None)
  || bool_decide (status p = None).

Definition _async_update_data : M World DeviceProp :=
  except_RoborockException
    (_update_device_prop ;; _set_current_map)
    (fun ex => raise (UpdateFailed (OfException ex))) ;;
  c <- self ;;
  if needed_prop_is_None (props c) then
    raise (UpdateFailed (OfMessage "One of the needed props was None."))
  else
    w <- get ;;
    (if negb (is_available w (api c)) then
       _recover ;;
       c <- self ;;
       modify (store_is_available (api c) true)
     else ret tt) ;;
    c <- self ;;
    ret (props c).

Definition get_maps : M World unit :=
  c <- self ;;
  maps_list <- await (GetMultiMapsList (api c))
                     (fun h => get_multi_maps_list V h (api c)) ;;
  match maps_list with
  | Some ml =>
      match map_info ml with
      | Some infos =>
          for_each infos (fun roborock_map =>
            modify (with_coordinator (fun c =>
              set_maps (<[name roborock_map := mapFlag roborock_map]> (maps c)) c)))
      | None => ret tt
      end
  | None => ret tt
  end.
End Methods.
End RoborockDataUpdateCoordinator.

(** ** device.py *)

Module RoborockEntity.
Record t := { _attr_unique_id : string; _api : ClientRef }.

Section Methods.
Variable V : Vendor.
(** [DOMAIN] of the integration's [const] module. *)
Variable DOMAIN : string.

Definition __init__ (unique_id : string) (api : ClientRef) : t :=
  {| _attr_unique_id := unique_id; _api := api |}.

Definition api (self : t) : ClientRef := _api self.

(** [command.name if isinstance(command, RoborockCommand) else command] *)
Definition command_placeholder (command : Command) : string :=
  match command with
  | CommandEnum member => member
  | CommandStr s => s
  end.

Definition send (self : t) (command : Command) (params : Params)
    : M World Payload :=
  response <-
    except_RoborockException
      (await (SendCommand (_api self) command params)
             (fun h => send_command V h (_api self) command params))
      (fun err =>
         raise (HomeAssistantError
                  {| err_command := command;
                     err_params := params;
                     translation_domain := DOMAIN;
                     translation_key := "command_failed";
                     placeholder_command := command_placeholder command;
                     err_cause := err |})) ;;
  ret response.
End Methods.
End RoborockEntity.

Module RoborockCoordinatedEntity.
Section Methods.
Variable V : Vendor.
Variable DOMAIN : string.
(** [DataUpdateCoordinator.async_refresh], the platform's method. *)
Variable async_refresh : M World unit.

(** The entity keeps the client that is the coordinator's [api] when the
    entity is made. *)
Definition __init__ (unique_id : string) (c : Coordinator) : RoborockEntity.t :=
  RoborockEntity.__init__ unique_id (api c).

Definition cloud_api : M World ClientRef :=
  c <- RoborockDataUpdateCoordinator.self ;; ret (cloud_api c).

Definition send (self : RoborockEntity.t) (command : Command) (params : Params)
    : M World Payload :=
  res <- RoborockEntity.send V DOMAIN self command params ;;
  async_refresh ;;
  ret res.

(** The property [_device_status]: [self.coordinator.data.status]; reading
    [status] of None raises [AttributeError]. *)
Definition _device_status : M World (option Status) :=
  c <- RoborockDataUpdateCoordinator.self ;;
  match data c with
  | Some d => ret (status d)
  | None => raise (OtherException "AttributeError")
  end.

(** [value] is a [Status] or a [Consumable]; writing the entity's state to
    the platform, the last statement, does not touch the coordinator. *)
Definition _update_from_listener (value : Status + Consumable) : M World unit :=
  modify (with_coordinator (fun c =>
    match value with
    | inl st =>
        set_props {| status := Some st;
                     clean_summary := clean_summary (props c);
                     consumable := consumable (props c);
                     prop_fields := prop_fields (props c) |} c
    | inr co =>
        set_props {| status := status (props c);
                     clean_summary := clean_summary (props c);
                     consumable := Some co;
                     prop_fields := prop_fields (props c) |} c
    end)) ;;
  modify (with_coordinator (fun c => set_data (Some (props c)) c)).
End Methods.
End RoborockCoordinatedEntity.

(** ** config_flow.py *)

Module RoborockFlowHandler.
(** [RoborockClient(username)] *)
Record RoborockClient := { client_username : string }.

Record t := {
  _username : option string;
  _errors : gmap string string;
  _client : option RoborockClient;
  _auth_method : option string
}.

Record Flow := { handler : t; flow_trace : list Event }.

#[global] Instance Flow_Traced : Traced Flow := {|
  history := flow_trace;
  record ev f := {| handler := handler f; flow_trace := flow_trace f ++ [ev] |}
|}.

Definition set_errors (e : gmap string string) (f : Flow) : Flow :=
  {| handler := {| _username := _username (handler f);
                   _errors := e;
                   _client := _client (handler f);
                   _auth_method := _auth_method (handler f) |};
     flow_trace := flow_trace f |}.

(** [vol.Schema({vol.Required(key): str})] *)
Inductive Schema := Required_str (key : string).

(** The entry's data, one field per key [CONF_USERNAME], [CONF_USER_DATA],
    [CONF_BASE_URL]. *)
Record EntryData := {
  at_CONF_USERNAME : string;
  at_CONF_USER_DATA : UserData;
  at_CONF_BASE_URL : string
}.

Inductive FlowResult :=
| Form (step_id : string) (data_schema : Schema) (errors : gmap string string)
| CreateEntry (title : string) (entry_data : EntryData).

(** Truth value of a [str]. *)
Definition str_bool (s : string) : bool := negb (bool_decide (s = "")).

Section Methods.
Variable V : Vendor.
(** [CONF_ENTRY_CODE] of the integration's [const] module. *)
Variable CONF_ENTRY_CODE : string.

Definition __init__ : t :=
  {| _username := None; _errors := ∅; _client := None; _auth_method := None |}.

Definition self : M Flow t := fun f => (Returned (handler f), f).

Definition _show_code_form : M Flow FlowResult :=
  h <- self ;;
  ret (Form "code" (Required_str CONF_ENTRY_CODE) (_errors h)).

Definition _create_entry (username : string) (user_data : UserData)
    : M Flow FlowResult :=
  h <- self ;;
  match _client h with
  | None => raise AssertionError
  | Some client =>
      f <- get ;;
      ret (CreateEntry username
             {| at_CONF_USERNAME := username;
                at_CONF_USER_DATA := user_data;
                at_CONF_BASE_URL := base_url V (history f) (client_username client) |})
  end.

Definition _code_login (code : string) : M Flow (option UserData) :=
  except_RoborockException_Exception
    (h <- self ;;
     match _client h with
     | None => raise AssertionError
     | Some client =>
         login_data <- await (CodeLogin (client_username client) code)
                             (fun hst => code_login V hst (client_username client) code) ;;
         ret (Some login_data)
     end)
    (h <- self ;;
     modify (set_errors (<["base" := "invalid_code"]> (_errors h))) ;;
     ret None)
    (h <- self ;;
     modify (set_errors (<["base" := "unknown"]> (_errors h))) ;;
     ret None).

Definition async_step_code (user_input : option (gmap string string))
    : M Flow FlowResult :=
  modify (set_errors ∅) ;;
  match user_input with
  | Some input =>
      code <- match input !! CONF_ENTRY_CODE with
              | Some code => ret code
              | None => raise (KeyError CONF_ENTRY_CODE)
              end ;;
      user_data <- _code_login code ;;
      h <- self ;;
      match user_data, _username h with
      | Some ud, Some username =>
          if UserData_bool V ud && str_bool username
          then _create_entry username ud
          else _show_code_form
      | _, _ => _show_code_form
      end
  | None => _show_code_form
  end.
End Methods.
End RoborockFlowHandler.

(** ** Runs of coordinator methods *)

(** The methods of the coordinator, and the listener of its entities, as the
    platform may call them one after the other. *)
Inductive CoordinatorCall :=
| Call_verify_api
| Call_release
| Call__recover
| Call__update_device_prop
| Call__async_update_data
| Call__set_current_map
| Call_get_maps
| Call__update_from_listener (value : Status + Consumable).

Section Runs.
Variable V : Vendor.

(** The world after one call; an exception ends the call, not the run. *)
Definition invoke (call : CoordinatorCall) (w : World) : World :=
  match call with
  | Call_verify_api => snd (RoborockDataUpdateCoordinator.verify_api V w)
  | Call_release => snd (RoborockDataUpdateCoordinator.release V w)
  | Call__recover => snd (RoborockDataUpdateCoordinator._recover V w)
  | Call__update_device_prop =>
      snd (RoborockDataUpdateCoordinator._update_device_prop V w)
  | Call__async_update_data =>
      snd (RoborockDataUpdateCoordinator._async_update_data V w)
  | Call__set_current_map => snd (RoborockDataUpdateCoordinator._set_current_map w)
  | Call_get_maps => snd (RoborockDataUpdateCoordinator.get_maps V w)
  | Call__update_from_listener value =>
      snd (RoborockCoordinatedEntity._update_from_listener value w)
  end.

Fixpoint run (calls : list CoordinatorCall) (w : World) : World :=
  match calls with
  | [] => w
  | call :: rest => run rest (invoke call w)
  end.

(** How many calls of the run assign a different client to [api]. *)
Fixpoint api_changes (calls : list CoordinatorCall) (w : World) : nat :=
  match calls with
  | [] => 0
  | call :: rest =>
      (if decide (api (coordinator (invoke call w)) = api (coordinator w))
       then 0 else 1) + api_changes rest (invoke call w)
  end.
End Runs.

(** The recovery reads of [_recover] all return: each
    [cache[key].async_value()] is answered from the history extended by the
    reads before it. *)
Fixpoint reads_return (V : Vendor) (h : list Event) (a : ClientRef)
    (keys : list CacheableAttribute) : Prop :=
  match keys with
  | [] => True
  | key :: rest =>
      (exists v, async_value V h a key = Returns v)
      /\ reads_return V (h ++ [AsyncValue a key]) a rest
  end.

(** ** Derived notions *)

Import RoborockDataUpdateCoordinator.

Definition selection (w : World) : ClientRef * ClientRef :=
  (api (coordinator w), cloud_api (coordinator w)).

Definition record_all (evs : list Event) (w : World) : World :=
  {| coordinator := coordinator w;
     is_available := is_available w;
     trace := trace w ++ evs |}.

Definition read_all V a keys : M World (list Payload) :=
  gather (map (fun key => await (AsyncValue a key) (fun h => async_value V h a key))
              keys).

(** The world after the fetch step of a poll, [_update_device_prop]. *)
Definition fetched (V : Vendor) (w : World) : World :=
  snd (_update_device_prop V w).

(** The world in which the poll checks the needed props: after the fetch and
    [_set_current_map]. *)
Definition polled (V : Vendor) (w : World) : World :=
  snd (_set_current_map (fetched V w)).

(** The poll fails as an update: the fetch raises [RoborockException], or it
    returns and one of the needed props is None afterwards. *)
Definition update_fails (V : Vendor) (w : World) : Prop :=
  (exists d, get_prop V (trace w) (api (coordinator w)) = RaisesRoborock d)
  \/ ((exists x, get_prop V (trace w) (api (coordinator w)) = Returns x)
      /\ needed_prop_is_None (props (coordinator (fetched V w))) = true).

(** C5 as the claim states it. *)
Definition update_failed_or_props (V : Vendor) (w : World) : Prop :=
  ((exists arg, fst (_async_update_data V w) = Raised (UpdateFailed arg))
   <-> update_fails V w)
  /\ (~ update_fails V w ->
      fst (_async_update_data V w)
      = Returned (props (coordinator (snd (_async_update_data V w))))).

(** C6 as the claim states it. *)
Definition snapshot_is_fetched_value (V : Vendor) (w : World) : Prop :=
  forall p, fst (_async_update_data V w) = Returned p ->
            get_prop V (trace w) (api (coordinator w)) = Returns (Some p).

Definition command_failed DOMAIN (command : Command) (params : Params) (d : string)
    : CommandError :=
  {| err_command := command;
     err_params := params;
     translation_domain := DOMAIN;
     translation_key := "command_failed";
     placeholder_command := RoborockEntity.command_placeholder command;
     err_cause := d |}.


(** ** Concrete vendors and worlds *)

Definition complete_prop (m : Z) : DeviceProp :=
  {| status := Some {| map_status := Some m; status_fields := [] |};
     clean_summary := Some {| clean_summary_fields := [] |};
     consumable := Some {| consumable_fields := [] |};
     prop_fields := [] |}.

(** An [update] that overwrites the fields set in the fetched value. *)
Definition overwrite_present (stored fetched : DeviceProp) : DeviceProp :=
  {| status := match status fetched with Some s => Some s | None => status stored end;
     clean_summary :=
       match clean_summary fetched with
       | Some s => Some s
       | None => clean_summary stored
       end;
     consumable :=
       match consumable fetched with
       | Some s => Some s
       | None => consumable stored
       end;
     prop_fields := prop_fields fetched |}.

(** A device that answers every call; instances are truthy. *)
Definition vendor_reachable : Vendor :=
  {| ping _ _ := Returns tt;
     async_disconnect _ _ := Returns tt;
     get_prop _ _ := Returns (Some (complete_prop 7));
     async_value _ _ _ := Returns [];
     get_multi_maps_list _ _ := Returns None;
     send_command _ _ _ _ := Returns [("result", 1%Z)];
     code_login _ _ _ := Returns {| user_data_fields := [] |};
     base_url _ _ := "https://euiot.roborock.com";
     DeviceProp_bool _ := true;
     DeviceProp_update := overwrite_present;
     UserData_bool _ := true |}.

(** A device out of reach of the local client: the first ping fails. *)
Definition vendor_local_unreachable : Vendor :=
  {| ping h _ := match h with [] => RaisesRoborock "timeout" | _ => Returns tt end;
     async_disconnect _ _ := Returns tt;
     get_prop _ _ := Returns (Some (complete_prop 7));
     async_value _ _ _ := Returns [];
     get_multi_maps_list _ _ := Returns None;
     send_command _ _ _ _ := RaisesRoborock "timeout";
     code_login _ _ _ := RaisesRoborock "invalid code";
     base_url _ _ := "https://euiot.roborock.com";
     DeviceProp_bool _ := true;
     DeviceProp_update := overwrite_present;
     UserData_bool _ := true |}.

(** The fetch returns, the reads of the cache time out. *)
Definition vendor_reads_fail : Vendor :=
  {| ping _ _ := Returns tt;
     async_disconnect _ _ := Returns tt;
     get_prop _ _ := Returns (Some (complete_prop 7));
     async_value _ _ _ := RaisesRoborock "timeout";
     get_multi_maps_list _ _ := Returns None;
     send_command _ _ _ _ := Returns [];
     code_login _ _ _ := RaisesOther "ClientError";
     base_url _ _ := "https://euiot.roborock.com";
     DeviceProp_bool _ := true;
     DeviceProp_update := overwrite_present;
     UserData_bool _ := true |}.

(** A device that answers nothing. *)
Definition vendor_offline : Vendor :=
  {| ping _ _ := RaisesRoborock "timeout";
     async_disconnect _ _ := Returns tt;
     get_prop _ _ := RaisesRoborock "timeout";
     async_value _ _ _ := RaisesRoborock "timeout";
     get_multi_maps_list _ _ := RaisesRoborock "timeout";
     send_command _ _ _ _ := RaisesRoborock "timeout";
     code_login _ _ _ := RaisesRoborock "timeout";
     base_url _ _ := "https://euiot.roborock.com";
     DeviceProp_bool _ := true;
     DeviceProp_update := overwrite_present;
     UserData_bool _ := true |}.

(** A library in which a [DeviceProp] with nothing set is falsy. *)
Definition vendor_empty_is_falsy : Vendor :=
  {| ping _ _ := Returns tt;
     async_disconnect _ _ := Returns tt;
     get_prop _ _ := Returns (Some (complete_prop 11));
     async_value _ _ _ := Returns [];
     get_multi_maps_list _ _ := Returns None;
     send_command _ _ _ _ := Returns [];
     code_login _ _ _ := Returns {| user_data_fields := [] |};
     base_url _ _ := "https://euiot.roborock.com";
     DeviceProp_bool d :=
       negb (bool_decide (status d = None)
             && bool_decide (clean_summary d = None)
             && bool_decide (consumable d = None));
     DeviceProp_update := overwrite_present;
     UserData_bool _ := true |}.

(** [get_prop] returns None. *)
Definition vendor_no_prop : Vendor :=
  {| ping _ _ := Returns tt;
     async_disconnect _ _ := Returns tt;
     get_prop _ _ := Returns None;
     async_value _ _ _ := Returns [];
     get_multi_maps_list _ _ := Returns None;
     send_command _ _ _ _ := Returns [];
     code_login _ _ _ := Returns {| user_data_fields := [] |};
     base_url _ _ := "https://euiot.roborock.com";
     DeviceProp_bool _ := true;
     DeviceProp_update := overwrite_present;
     UserData_bool _ := true |}.

(** A coordinator as [__init__] leaves it, with local client 0 and cloud
    client 1. *)
Definition coordinator_new : Coordinator :=
  RoborockDataUpdateCoordinator.__init__ 0 (RoborockMqttClient 1).

Definition world_new : World :=
  {| coordinator := coordinator_new; is_available := fun _ => true; trace := [] |}.

(** The same coordinator with two cache keys needed, its clients marked
    unavailable. *)
Definition world_unavailable : World :=
  {| coordinator :=
       {| props := DeviceProp_new;
          api := RoborockLocalClient 0;
          cloud_api := RoborockMqttClient 1;
          needed_cache_keys := ["dnd_timer"; "sound_volume"];
          current_map := None;
          maps := ∅;
          data := None |};
     is_available := fun _ => false;
     trace := [] |}.

(** A coordinator whose stored props are complete. *)
Definition world_polled : World :=
  {| coordinator := set_props (complete_prop 7) coordinator_new;
     is_available := fun _ => true;
     trace := [] |}.

(** The flow after the user step: the username is kept and a client made. *)
Definition flow_after_user_step : RoborockFlowHandler.Flow :=
  {| RoborockFlowHandler.handler :=
       {| RoborockFlowHandler._username := Some "user@example.com";
          RoborockFlowHandler._errors := ∅;
          RoborockFlowHandler._client :=
            Some {| RoborockFlowHandler.client_username := "user@example.com" |};
          RoborockFlowHandler._auth_method := None |};
     RoborockFlowHandler.flow_trace := [] |}.

(** ** Notions for the further properties *)

(** The client an interaction is with, if it is with a client. *)
Definition event_client (ev : Event) : option ClientRef :=
  match ev with
  | Ping c => Some c
  | AsyncDisconnect c => Some c
  | GetProp c => Some c
  | AsyncValue c _ => Some c
  | GetMultiMapsList c => Some c
  | SendCommand c _ _ => Some c
  | SetIsAvailable c _ => Some c
  | PropUpdate _ _ => None
  | CodeLogin _ _ => None
  end.

(** The interaction is with no client other than [a]. *)
Definition on_client (a : ClientRef) (ev : Event) : Prop :=
  forall c, event_client ev = Some c -> c = a.

(** [for roborock_map in infos: maps[roborock_map.name] = roborock_map.mapFlag] *)
Definition add_maps (infos : list MultiMapsListMapInfo) (m : gmap string Z)
    : gmap string Z :=
  fold_left (fun acc roborock_map => <[name roborock_map := mapFlag roborock_map]> acc)
            infos m.

(** From [w] to [w'] the only new interactions are with client [a], and the
    only attribute written is [a.is_available], to true. *)
Definition extends (a : ClientRef) (w w' : World) : Prop :=
  (exists evs, trace w' = trace w ++ evs /\ Forall (on_client a) evs)
  /\ (forall r, is_available w' r = is_available w r
                \/ (r = a /\ is_available w' r = true)).

(** ** config_flow.py: the user step *)

Module RoborockFlowHandlerUserStep.
Import RoborockFlowHandler.

(** The flow together with the usernames a code was requested for, in the
    order of the requests. *)
Record Wizard := { flow : Flow; requested : list string }.

Definition on_flow (g : Flow -> Flow) (u : Wizard) : Wizard :=
  {| flow := g (flow u); requested := requested u |}.

(** A step of the handler that requests no code. *)
Definition lift {A} (m : M Flow A) : M Wizard A :=
  fun u => (fst (m (flow u)), {| flow := snd (m (flow u)); requested := requested u |}).

Definition set_username (username : option string) (f : Flow) : Flow :=
  {| handler := {| _username := username;
                   _errors := _errors (handler f);
                   _client := _client (handler f);
                   _auth_method := _auth_method (handler f) |};
     flow_trace := flow_trace f |}.

Definition set_client (client : option RoborockClient) (f : Flow) : Flow :=
  {| handler := {| _username := _username (handler f);
                   _errors := _errors (handler f);
                   _client := client;
                   _auth_method := _auth_method (handler f) |};
     flow_trace := flow_trace f |}.

(** A call into the platform that returns or raises and leaves the handler
    alone. *)
Definition platform {S} (outcome : result unit) : M S unit :=
  fun s => (outcome, s).

Section Methods.
Variable V : Vendor.
(** [CONF_USERNAME] of the platform's constants, [CONF_ENTRY_CODE] of the
    integration's. *)
Variable CONF_USERNAME : string.
Variable CONF_ENTRY_CODE : string.
(** [str.lower] *)
Variable lower : string -> string.
(** The platform's [async_set_unique_id], by the unique id given, and its
    [_abort_if_unique_id_configured], by the unique id set. *)
Variable async_set_unique_id : string -> result unit.
Variable _abort_if_unique_id_configured : string -> result unit.
(** [RoborockClient(username)] followed by [client.request_code()], answered
    from the requests made before. *)
Variable request_code : list string -> string -> reply unit.

Definition self : M Wizard t := fun u => (Returned (handler (flow u)), u).

Definition await_request_code (username : string) : M Wizard RoborockClient :=
  fun u =>
    (match reply_result (request_code (requested u) username) with
     | Returned _ => Returned {| client_username := username |}
     | Raised e => Raised e
     end,
     {| flow := flow u; requested := requested u ++ [username] |}).

Definition async_step_user (user_input : option (gmap string string))
    : M Wizard FlowResult :=
  modify (on_flow (set_errors ∅)) ;;
  requested_for <-
    match user_input with
    | Some input =>
        username <- match input !! CONF_USERNAME with
                    | Some username => ret username
                    | None => raise (KeyError CONF_USERNAME)
                    end ;;
        platform (async_set_unique_id (lower username)) ;;
        platform (_abort_if_unique_id_configured (lower username)) ;;
        modify (on_flow (set_username (Some username))) ;;
        (* assert self._username is not None: it was just set *)
        except_RoborockException_Exception
          (client <- await_request_code username ;;
           ret (Some client))
          (h <- self ;;
           modify (on_flow (set_errors (<["base" := "invalid_email"]> (_errors h)))) ;;
           ret None)
          (h <- self ;;
           modify (on_flow (set_errors (<["base" := "unknown"]> (_errors h)))) ;;
           ret None)
    | None => ret None
    end ;;
  match requested_for with
  | Some client =>
      modify (on_flow (set_client (Some client))) ;;
      lift (async_step_code V CONF_ENTRY_CODE None)
  | None =>
      h <- self ;;
      ret (Form "user" (Required_str CONF_USERNAME) (_errors h))
  end.
End Methods.
End RoborockFlowHandlerUserStep.

(** ** oralb/__init__.py *)

Module OralB.
(** [OralbActiveBluetoothProcessorCoordinator(hass, address)], known here by
    the address it is made for. *)
Record Coordinator := { address : string }.

Inductive Platform := SENSOR.

Definition PLATFORMS : list Platform := [SENSOR].

Record ConfigEntry := { entry_id : string; unique_id : option string }.

(** [hass.data], the coordinators started for the entries' unload, and the
    calls into the platform's config entries. *)
Inductive PlatformCall :=
| ForwardEntrySetups (entry : string) (platforms : list Platform)
| UnloadPlatforms (entry : string) (platforms : list Platform).

Record Hass := {
  hass_data : gmap string (gmap string Coordinator);
  on_unload : list (string * Coordinator);
  platform_calls : list PlatformCall
}.

Definition set_hass_data (d : gmap string (gmap string Coordinator)) (h : Hass)
    : Hass :=
  {| hass_data := d; on_unload := on_unload h; platform_calls := platform_calls h |}.

Section Methods.
(** [DOMAIN] of the integration's [const] module. *)
Variable DOMAIN : string.
(** The platform's [async_forward_entry_setups] and
    [async_unload_platforms], answered from the calls made before. *)
Variable async_forward_entry_setups : list PlatformCall -> string -> result unit.
Variable async_unload_platforms : list PlatformCall -> string -> result bool.

Definition await_platform {A} (call : PlatformCall)
    (answer : list PlatformCall -> result A) : M Hass A :=
  fun h =>
    (answer (platform_calls h),
     {| hass_data := hass_data h;
        on_unload := on_unload h;
        platform_calls := platform_calls h ++ [call] |}).

Definition async_setup_entry (entry : ConfigEntry) : M Hass bool :=
  match unique_id entry with
  | None => raise AssertionError
  | Some address =>
      let coordinator := {| address := address |} in
      (* hass.data.setdefault(DOMAIN, {})[entry.entry_id] = coordinator *)
      modify (fun h =>
        set_hass_data
          (<[DOMAIN := <[entry_id entry := coordinator]>
                         (default ∅ (hass_data h !! DOMAIN))]> (hass_data h)) h) ;;
      await_platform (ForwardEntrySetups (entry_id entry) PLATFORMS)
        (fun calls => async_forward_entry_setups calls (entry_id entry)) ;;
      (* entry.async_on_unload(coordinator.async_start()) *)
      modify (fun h =>
        {| hass_data := hass_data h;
           on_unload := on_unload h ++ [(entry_id entry, coordinator)];
           platform_calls := platform_calls h |}) ;;
      ret true
  end.

Definition async_unload_entry (entry : ConfigEntry) : M Hass bool :=
  unload_ok <- await_platform (UnloadPlatforms (entry_id entry) PLATFORMS)
                 (fun calls => async_unload_platforms calls (entry_id entry)) ;;
  (if unload_ok then
     h <- get ;;
     match hass_data h !! DOMAIN with
     | None => raise (KeyError DOMAIN)
     | Some coordinators =>
         match coordinators !! entry_id entry with
         | None => raise (KeyError (entry_id entry))
         | Some _ =>
             modify (set_hass_data
                       (<[DOMAIN := delete (entry_id entry) coordinators]>
                          (hass_data h)))
         end
     end
   else ret tt) ;;
  ret unload_ok.
End Methods.
End OralB.


(** ** Further vendors, worlds and flows *)

(** A device with two floors, the ground floor listed twice. *)
Definition vendor_two_floors : Vendor :=
  {| ping _ _ := Returns tt;
     async_disconnect _ _ := Returns tt;
     get_prop _ _ := Returns (Some (complete_prop 7));
     async_value _ _ _ := Returns [];
     get_multi_maps_list _ _ :=
       Returns (Some {| map_info :=
                          Some [ {| name := "Ground"; mapFlag := 0 |};
                                 {| name := "First"; mapFlag := 1 |};
                                 {| name := "Ground"; mapFlag := 2 |} ]%Z |});
     send_command _ _ _ _ := Returns [];
     code_login _ _ _ := Returns {| user_data_fields := [] |};
     base_url _ _ := "https://euiot.roborock.com";
     DeviceProp_bool _ := true;
     DeviceProp_update := overwrite_present;
     UserData_bool _ := true |}.

(** The world after the fallback to the cloud client. *)
Definition world_fallen_back : World :=
  snd (RoborockDataUpdateCoordinator.verify_api vendor_local_unreachable world_new).

Definition status_of_flag_2 : Status :=
  {| map_status := Some 11%Z; status_fields := [] |}.

(** A flow that reached the code step without a client. *)
Definition flow_without_client : RoborockFlowHandler.Flow :=
  {| RoborockFlowHandler.handler :=
       {| RoborockFlowHandler._username := Some "user@example.com";
          RoborockFlowHandler._errors := <["base" := "invalid_email"]> ∅;
          RoborockFlowHandler._client := None;
          RoborockFlowHandler._auth_method := None |};
     RoborockFlowHandler.flow_trace := [] |}.

(** A flow with a client and no username. *)
Definition flow_without_username : RoborockFlowHandler.Flow :=
  {| RoborockFlowHandler.handler :=
       {| RoborockFlowHandler._username := None;
          RoborockFlowHandler._errors := ∅;
          RoborockFlowHandler._client :=
            Some {| RoborockFlowHandler.client_username := "user@example.com" |};
          RoborockFlowHandler._auth_method := None |};
     RoborockFlowHandler.flow_trace := [] |}.

(** A flow as [__init__] leaves it, nothing requested. *)
Definition wizard_new : RoborockFlowHandlerUserStep.Wizard :=
  {| RoborockFlowHandlerUserStep.flow :=
       {| RoborockFlowHandler.handler := RoborockFlowHandler.__init__;
          RoborockFlowHandler.flow_trace := [] |};
     RoborockFlowHandlerUserStep.requested := [] |}.

(** [str.lower] on ASCII letters. *)
Fixpoint lower_ascii (s : string) : string :=
  match s with
  | EmptyString => EmptyString
  | String c rest =>
      let n := Ascii.nat_of_ascii c in
      String (if (65 <=? n)%nat && (n <=? 90)%nat
              then Ascii.ascii_of_nat (n + 32) else c)
             (lower_ascii rest)
  end.

(** A platform on which no unique id is configured or in progress. *)
Definition unique_id_free (unique_id : string) : result unit := Returned tt.

(** A platform on which every unique id is configured already. *)
Definition unique_id_taken (unique_id : string) : result unit :=
  Raised (OtherException "AbortFlow").

Definition code_sent (requests : list string) (username : string) : reply unit :=
  Returns tt.

Definition code_refused (requests : list string) (username : string) : reply unit :=
  RaisesRoborock "invalid email".

Definition user_input_of (username : string) : gmap string string :=
  <["username" := username]> ∅.

Definition code_input_of (code : string) : gmap string string :=
  <["code" := code]> ∅.

(** An OralB entry and a [hass] without data. *)
Definition oralb_entry : OralB.ConfigEntry :=
  {| OralB.entry_id := "entry-1"; OralB.unique_id := Some "78:DB:2F:C2:48:BE" |}.

Definition hass_new : OralB.Hass :=
  {| OralB.hass_data := ∅; OralB.on_unload := []; OralB.platform_calls := [] |}.

Definition platforms_forward (calls : list OralB.PlatformCall) (entry : string)
    : result unit := Returned tt.

Definition platforms_unload (calls : list OralB.PlatformCall) (entry : string)
    : result bool := Returned true.


(** ** Notions for the amended claims *)

(** The stored props once [_update_device_prop] is done with what [get_prop]
    returned: [stored] merged with, or replaced by, a truthy fetched value,
    and [stored] itself when nothing, or a falsy value, was fetched. *)
Definition stored_after_fetch (V : Vendor) (stored : DeviceProp)
    (returned : option DeviceProp) : DeviceProp :=
  match returned with
  | Some d =>
      if DeviceProp_bool V d then
        if DeviceProp_bool V stored then DeviceProp_update V stored d else d
      else stored
  | None => stored
  end.

(** The interactions of that fetch with client [a]. *)
Definition fetch_interactions (V : Vendor) (a : ClientRef) (stored : DeviceProp)
    (returned : option DeviceProp) : list Event :=
  GetProp a ::
  match returned with
  | Some d =>
      if DeviceProp_bool V d && DeviceProp_bool V stored
      then [PropUpdate stored d] else []
  | None => []
  end.

(** C2 as the claim states it: with [is_available] false, an update in which
    no [RoborockException] is raised and whose needed props are set reads
    every needed attribute, sets [is_available] and returns the props. *)
Definition recovers_unless_RoborockException (V : Vendor) (w : World) : Prop :=
  let a := api (coordinator w) in
  let out := _async_update_data V w in
  is_available w a = false ->
  (forall d, get_prop V (trace w) a <> RaisesRoborock d) ->
  (forall d, fst out <> Raised (RoborockException d)) ->
  needed_prop_is_None (props (coordinator (snd out))) = false ->
  (forall key, key ∈ needed_cache_keys (coordinator w) ->
               AsyncValue a key ∈ trace (snd out))
  /\ is_available (snd out) a = true
  /\ fst out = Returned (props (coordinator (snd out))).

(** C7 as the claim states it: any exception of [code_login] other than
    [RoborockException] gives the error unknown and the code form. *)
Definition any_other_exception_is_unknown (V : Vendor) (CONF_ENTRY_CODE : string)
    (input : gmap string string) (f : RoborockFlowHandler.Flow) : Prop :=
  let out := RoborockFlowHandler.async_step_code V CONF_ENTRY_CODE (Some input) f in
  forall code client n,
    input !! CONF_ENTRY_CODE = Some code ->
    RoborockFlowHandler._client (RoborockFlowHandler.handler f) = Some client ->
    code_login V (RoborockFlowHandler.flow_trace f)
      (RoborockFlowHandler.client_username client) code = RaisesOther n ->
    RoborockFlowHandler._errors (RoborockFlowHandler.handler (snd out))
    = <["base" := "unknown"]> ∅
    /\ fst out
       = Returned (RoborockFlowHandler.Form "code"
                     (RoborockFlowHandler.Required_str CONF_ENTRY_CODE)
                     (<["base" := "unknown"]> ∅)).

(** C8 as the claim states it, the fetched status being that of the value
    [get_prop] returned. *)
Definition current_map_from_returned_status (V : Vendor) (w : World) : Prop :=
  let c' := coordinator (snd (_async_update_data V w)) in
  match get_prop V (trace w) (api (coordinator w)) with
  | Returns (Some {| status := Some {| map_status := Some m |} |}) =>
      current_map c' = Some ((m - 3) `div` 4)%Z
  | _ => current_map c' = current_map (coordinator w)
  end.

(** The reads of the cache raise [TimeoutError]. *)
Definition vendor_reads_time_out : Vendor :=
  {| ping _ _ := Returns tt;
     async_disconnect _ _ := Returns tt;
     get_prop _ _ := Returns (Some (complete_prop 7));
     async_value _ _ _ := RaisesOther "TimeoutError";
     get_multi_maps_list _ _ := Returns None;
     send_command _ _ _ _ := Returns [];
     code_login _ _ _ := Returns {| user_data_fields := [] |};
     base_url _ _ := "https://euiot.roborock.com";
     DeviceProp_bool _ := true;
     DeviceProp_update := overwrite_present;
     UserData_bool _ := true |}.

(** The login is cancelled: [code_login] raises asyncio's [CancelledError]. *)
Definition vendor_login_cancelled : Vendor :=
  {| ping _ _ := Returns tt;
     async_disconnect _ _ := Returns tt;
     get_prop _ _ := Returns (Some (complete_prop 7));
     async_value _ _ _ := Returns [];
     get_multi_maps_list _ _ := Returns None;
     send_command _ _ _ _ := Returns [];
     code_login _ _ _ := RaisesOther "CancelledError";
     base_url _ _ := "https://euiot.roborock.com";
     DeviceProp_bool _ := true;
     DeviceProp_update := overwrite_present;
     UserData_bool _ := true |}.

(** A coordinator that has polled map status 7 (so [current_map] is 1) and
    whose listener has then received the status of map flag 2. *)
Definition world_after_listener : World :=
  snd (RoborockCoordinatedEntity._update_from_listener (inl status_of_flag_2)
         (snd (_async_update_data vendor_reachable world_new))).


(** ** Frame lemmas: what an action leaves alone *)

Definition preserves {A X} (f : World -> X) (m : M World A) : Prop :=
  forall w, f (snd (m w)) = f w.

Lemma preserves_ret {A X} (f : World -> X) (a : A) : preserves f (ret a).
Proof. intros w. reflexivity. Qed.

Lemma preserves_raise {A X} (f : World -> X) e : preserves f (@raise World A e).
Proof. intros w. reflexivity. Qed.

Lemma preserves_get {X} (f : World -> X) : preserves f get.
Proof. intros w. reflexivity. Qed.

Lemma preserves_self {X} (f : World -> X) :
  preserves f RoborockDataUpdateCoordinator.self.
Proof. intros w. reflexivity. Qed.

Lemma preserves_bind {A B X} (f : World -> X) (m : M World A) (k : A -> M World B) :
  preserves f m -> (forall a, preserves f (k a)) -> preserves f (bind m k).
Proof.
  intros Hm Hk w. unfold bind. specialize (Hm w).
  destruct (m w) as [[a|e] w1]; simpl in *.
  - rewrite Hk. exact Hm.
  - exact Hm.
Qed.

Lemma preserves_modify {X} (f : World -> X) (g : World -> World) :
  (forall w, f (g w) = f w) -> preserves f (modify g).
Proof. intros Hg w. apply Hg. Qed.

Lemma preserves_await {A X} (f : World -> X) ev (answer : list Event -> reply A) :
  (forall w, f (record ev w) = f w) -> preserves f (await ev answer).
Proof. intros Hf w. apply Hf. Qed.

Lemma preserves_except {A X} (f : World -> X) (body : M World A) handler :
  preserves f body -> (forall d, preserves f (handler d)) ->
  preserves f (except_RoborockException body handler).
Proof.
  intros Hb Hh w. unfold except_RoborockException. specialize (Hb w).
  destruct (body w) as [[a|e] w1]; simpl in *; [exact Hb|].
  destruct e; simpl; try exact Hb.
  rewrite Hh. exact Hb.
Qed.

Lemma preserves_gather {A X} (f : World -> X) (aws : list (M World A)) :
  Forall (preserves f) aws -> preserves f (gather aws).
Proof.
  induction 1 as [|aw rest Haw _ IH]; intros w; simpl; [reflexivity|].
  specialize (Haw w). destruct (aw w) as [[a|e] w1]; simpl in *.
  - pose proof (preserves_bind f (gather rest) (fun others => ret (a :: others)) IH
                  (fun o => preserves_ret f _) w1) as Hb.
    rewrite Hb. exact Haw.
  - rewrite IH. exact Haw.
Qed.

Lemma preserves_for_each {A X} (f : World -> X) (xs : list A) body :
  (forall x, preserves f (body x)) -> preserves f (for_each xs body).
Proof.
  intros Hb. induction xs as [|x rest IH]; simpl.
  - apply preserves_ret.
  - apply preserves_bind; [apply Hb | intros _; exact IH].
Qed.

(** ** The api selection *)

Create HintDb frame discriminated.
#[local] Hint Resolve preserves_ret preserves_raise preserves_get preserves_self
  preserves_bind preserves_modify preserves_await preserves_except
  preserves_gather preserves_for_each : frame.

Ltac frame := repeat (intro || reflexivity || eauto 6 with frame).

Lemma release_selection V : preserves selection (release V).
Proof. unfold release. frame. Qed.

Lemma _recover_selection V : preserves selection (_recover V).
Proof.
  unfold _recover. apply preserves_bind; [frame|]. intros c.
  apply preserves_bind; [|frame].
  apply preserves_gather, Forall_forall. intros aw Hin.
  apply list_elem_of_fmap in Hin as [key [-> _]]. frame.
Qed.

Lemma _update_device_prop_selection V : preserves selection (_update_device_prop V).
Proof.
  unfold _update_device_prop. apply preserves_bind; [frame|]. intros c.
  apply preserves_bind; [frame|]. intros [fetched|]; [|frame].
  destruct (DeviceProp_bool V fetched); [|frame].
  apply preserves_bind; [frame|]. intros c'.
  destruct (DeviceProp_bool V (props c')); frame.
Qed.

Lemma _set_current_map_selection : preserves selection _set_current_map.
Proof.
  unfold _set_current_map. apply preserves_bind; [frame|]. intros c.
  destruct (status (props c)) as [st|]; [|frame].
  destruct (map_status st); frame.
Qed.

Lemma store_is_available_selection r b : preserves selection (modify (store_is_available r b)).
Proof. frame. Qed.

Lemma _async_update_data_selection V : preserves selection (_async_update_data V).
Proof.
  unfold _async_update_data.
  apply preserves_bind.
  { apply preserves_except; [|frame].
    apply preserves_bind; [apply _update_device_prop_selection|].
    intros _. apply _set_current_map_selection. }
  intros _. apply preserves_bind; [frame|]. intros c.
  destruct (needed_prop_is_None (props c)); [frame|].
  apply preserves_bind; [frame|]. intros w0.
  apply preserves_bind; [|frame].
  destruct (negb (is_available w0 (api c))); [|frame].
  apply preserves_bind; [apply _recover_selection|]. frame.
Qed.

Lemma get_maps_selection V : preserves selection (get_maps V).
Proof.
  unfold get_maps. apply preserves_bind; [frame|]. intros c.
  apply preserves_bind; [frame|]. intros [ml|]; [|frame].
  destruct (map_info ml) as [infos|]; [|frame].
  apply preserves_for_each. intros roborock_map.
  apply preserves_modify. reflexivity.
Qed.

Lemma _update_from_listener_selection value :
  preserves selection (RoborockCoordinatedEntity._update_from_listener value).
Proof.
  unfold RoborockCoordinatedEntity._update_from_listener.
  apply preserves_bind; [|frame].
  apply preserves_modify. intros w. destruct value; reflexivity.
Qed.

Lemma verify_api_selection V w :
  cloud_api (coordinator (snd (verify_api V w))) = cloud_api (coordinator w)
  /\ (api (coordinator (snd (verify_api V w))) = api (coordinator w)
      \/ (isinstance_RoborockLocalClient (api (coordinator w)) = true
          /\ api (coordinator (snd (verify_api V w))) = cloud_api (coordinator w))).
Proof.
  unfold verify_api, bind, self; simpl.
  destruct (isinstance_RoborockLocalClient (api (coordinator w))) eqn:Hloc; simpl.
  - unfold except_RoborockException, await; simpl.
    destruct (ping V (trace w) (api (coordinator w))); simpl; auto.
  - auto.
Qed.

Lemma invoke_selection V call w :
  cloud_api (coordinator (invoke V call w)) = cloud_api (coordinator w)
  /\ (api (coordinator (invoke V call w)) = api (coordinator w)
      \/ (isinstance_RoborockLocalClient (api (coordinator w)) = true
          /\ api (coordinator (invoke V call w)) = cloud_api (coordinator w))).
Proof.
  assert (Hframe : forall A (m : M World A), preserves selection m ->
            cloud_api (coordinator (snd (m w))) = cloud_api (coordinator w)
            /\ (api (coordinator (snd (m w))) = api (coordinator w)
                \/ (isinstance_RoborockLocalClient (api (coordinator w)) = true
                    /\ api (coordinator (snd (m w))) = cloud_api (coordinator w)))).
  { intros A m Hm. specialize (Hm w). unfold selection in Hm.
    injection Hm as Ha Hc. auto. }
  destruct call; unfold invoke.
  - apply verify_api_selection.
  - apply (Hframe _ _ (release_selection V)).
  - apply (Hframe _ _ (_recover_selection V)).
  - apply (Hframe _ _ (_update_device_prop_selection V)).
  - apply (Hframe _ _ (_async_update_data_selection V)).
  - apply (Hframe _ _ _set_current_map_selection).
  - apply (Hframe _ _ (get_maps_selection V)).
  - apply (Hframe _ _ (_update_from_listener_selection value)).
Qed.

Lemma run_cloud_api V calls w :
  cloud_api (coordinator (run V calls w)) = cloud_api (coordinator w).
Proof.
  revert w. induction calls as [|call rest IH]; intros w; simpl; [reflexivity|].
  rewrite IH. apply invoke_selection.
Qed.

Lemma run_not_local V calls w :
  isinstance_RoborockLocalClient (api (coordinator w)) = false ->
  api (coordinator (run V calls w)) = api (coordinator w)
  /\ api_changes V calls w = 0.
Proof.
  revert w. induction calls as [|call rest IH]; intros w Hw; simpl; [auto|].
  destruct (invoke_selection V call w) as [_ [Hsame|[Hloc _]]]; [|congruence].
  rewrite Hsame. rewrite decide_True by reflexivity.
  destruct (IH (invoke V call w)) as [Hrun Hcount]; [congruence|].
  rewrite Hrun, Hcount. auto.
Qed.

(** C1: when [api] is a [RoborockLocalClient], [verify_api] pings that
    client; if the ping raises [RoborockException] the [api] field becomes
    [cloud_api], and if the ping returns the [api] field (the whole
    coordinator) is unchanged.  In both cases [verify_api] returns. *)
Theorem verify_api_pings_local_then_falls_back V w id :
  api (coordinator w) = RoborockLocalClient id ->
  trace (snd (verify_api V w)) = trace w ++ [Ping (RoborockLocalClient id)]
  /\ (forall detail,
        ping V (trace w) (RoborockLocalClient id) = RaisesRoborock detail ->
        fst (verify_api V w) = Returned tt
        /\ coordinator (snd (verify_api V w))
           = set_api (cloud_api (coordinator w)) (coordinator w)
        /\ api (coordinator (snd (verify_api V w))) = cloud_api (coordinator w))
  /\ (ping V (trace w) (RoborockLocalClient id) = Returns tt ->
        fst (verify_api V w) = Returned tt
        /\ coordinator (snd (verify_api V w)) = coordinator w
        /\ api (coordinator (snd (verify_api V w))) = RoborockLocalClient id).
Proof.
  intros Hapi. unfold verify_api, bind, self; simpl. rewrite Hapi; simpl.
  unfold except_RoborockException, await; simpl.
  split; [|split].
  - destruct (ping V (trace w) (RoborockLocalClient id)); reflexivity.
  - intros detail ->. simpl. auto.
  - intros ->. simpl. rewrite <- Hapi. destruct w; auto.
Qed.

(** C3: given that [cloud_api] is a [RoborockMqttClient] (its annotation),
    once [api] is no longer a [RoborockLocalClient] no run of coordinator
    methods assigns [api] again, so it never becomes a local client; and in
    any run whatever [api] is assigned a different client at most once, the
    new client being [cloud_api]. *)
Theorem api_selected_once_never_back V calls w :
  isinstance_RoborockLocalClient (cloud_api (coordinator w)) = false ->
  (isinstance_RoborockLocalClient (api (coordinator w)) = false ->
     api (coordinator (run V calls w)) = api (coordinator w)
     /\ isinstance_RoborockLocalClient (api (coordinator (run V calls w))) = false)
  /\ api_changes V calls w <= 1
  /\ (api (coordinator (run V calls w)) = api (coordinator w)
      \/ api (coordinator (run V calls w)) = cloud_api (coordinator w)).
Proof.
  intros Hcloud. split.
  { intros Hapi. destruct (run_not_local V calls w Hapi) as [Hrun _].
    rewrite Hrun. auto. }
  revert w Hcloud. induction calls as [|call rest IH]; intros w Hcloud; simpl.
  { split; [lia | auto]. }
  destruct (invoke_selection V call w) as [Hc [Hsame|[Hloc Hsw]]].
  - rewrite Hsame, decide_True by reflexivity.
    destruct (IH (invoke V call w)) as [Hn Hfin]; [congruence|].
    rewrite Hc, Hsame in Hfin. split; [lia | exact Hfin].
  - destruct (run_not_local V rest (invoke V call w)) as [Hrun Hcount];
      [congruence|].
    rewrite Hrun, Hcount, Hsw. split; [case_decide; lia | auto].
Qed.

(** ** The poll *)

Lemma read_all_world V a keys w :
  snd (read_all V a keys w) = record_all (map (AsyncValue a) keys) w.
Proof.
  unfold read_all. revert w. induction keys as [|key rest IH]; intros w; simpl.
  - unfold record_all. rewrite app_nil_r. destruct w; reflexivity.
  - unfold await at 1; simpl.
    destruct (async_value V (trace w) a key); simpl.
    + unfold bind. specialize (IH (record (AsyncValue a key) w)).
      destruct (gather _ _) as [[vs|e] w2]; simpl in *; rewrite IH;
        unfold record_all; simpl; rewrite <- app_assoc; reflexivity.
    + rewrite IH. unfold record_all; simpl. rewrite <- app_assoc. reflexivity.
    + rewrite IH. unfold record_all; simpl. rewrite <- app_assoc. reflexivity.
Qed.

Lemma read_all_returns V a keys w :
  (exists vs, fst (read_all V a keys w) = Returned vs)
  <-> reads_return V (trace w) a keys.
Proof.
  unfold read_all. revert w. induction keys as [|key rest IH]; intros w; simpl.
  - split; eauto.
  - unfold await at 1; simpl. specialize (IH (record (AsyncValue a key) w)).
    simpl in IH.
    destruct (async_value V (trace w) a key) as [v|d|n]; simpl.
    + unfold bind. destruct (gather _ _) as [[vs|e] w2]; simpl in *.
      * split; [intros _; split; [eauto | apply IH; eauto] | eauto].
      * split; [intros [vs Hvs]; discriminate|].
        intros [_ Hrest]. apply IH in Hrest as [vs Hvs]. discriminate.
    + split; [intros [vs Hvs]; discriminate | intros [[v Hv] _]; discriminate].
    + split; [intros [vs Hvs]; discriminate | intros [[v Hv] _]; discriminate].
Qed.

Lemma _recover_run V w :
  snd (_recover V w)
  = record_all (map (AsyncValue (api (coordinator w)))
                    (needed_cache_keys (coordinator w))) w
  /\ (fst (_recover V w) = Returned tt
      <-> reads_return V (trace w) (api (coordinator w))
            (needed_cache_keys (coordinator w))).
Proof.
  unfold _recover, bind, self; simpl.
  pose proof (read_all_world V (api (coordinator w))
                (needed_cache_keys (coordinator w)) w) as Hw.
  pose proof (read_all_returns V (api (coordinator w))
                (needed_cache_keys (coordinator w)) w) as Hr.
  unfold read_all in *.
  destruct (gather _ w) as [[vs|e] w2]; simpl in *; subst w2; split;
    try reflexivity.
  - split; [intros _; apply Hr; eauto | reflexivity].
  - split; [discriminate | intros H; apply Hr in H as [vs Hvs]; discriminate].
Qed.

Lemma _update_device_prop_run V w :
  let a := api (coordinator w) in
  let stored := props (coordinator w) in
  _update_device_prop V w =
  match get_prop V (trace w) a with
  | Returns (Some d) =>
      if DeviceProp_bool V d then
        if DeviceProp_bool V stored then
          (Returned tt,
           with_coordinator (set_props (DeviceProp_update V stored d))
             (record_all [GetProp a; PropUpdate stored d] w))
        else
          (Returned tt, with_coordinator (set_props d) (record_all [GetProp a] w))
      else (Returned tt, record_all [GetProp a] w)
  | Returns None => (Returned tt, record_all [GetProp a] w)
  | RaisesRoborock detail =>
      (Raised (RoborockException detail), record_all [GetProp a] w)
  | RaisesOther n => (Raised (OtherException n), record_all [GetProp a] w)
  end.
Proof.
  unfold _update_device_prop, bind, self, await; simpl.
  destruct (get_prop V (trace w) (api (coordinator w))) as [[d|]|detail|n];
    simpl; try reflexivity.
  destruct (DeviceProp_bool V d); simpl; [|reflexivity].
  destruct (DeviceProp_bool V (props (coordinator w))); simpl; [|reflexivity].
  unfold modify, with_coordinator, record_all; simpl.
  rewrite <- app_assoc. reflexivity.
Qed.

Lemma _set_current_map_run w :
  _set_current_map w =
  (Returned tt,
   match status (props (coordinator w)) with
   | Some st =>
       match map_status st with
       | Some m => with_coordinator (set_current_map (Some ((m - 3) `div` 4)%Z)) w
       | None => w
       end
   | None => w
   end).
Proof.
  unfold _set_current_map, bind, self; simpl.
  destruct (status (props (coordinator w))) as [st|]; [|reflexivity].
  destruct (map_status st); reflexivity.
Qed.

Lemma _async_update_data_run V w :
  _async_update_data V w =
  match fst (_update_device_prop V w) with
  | Raised (RoborockException d) =>
      (Raised (UpdateFailed (OfException d)), fetched V w)
  | Raised e => (Raised e, fetched V w)
  | Returned _ =>
      let w1 := polled V w in
      let c := coordinator w1 in
      if needed_prop_is_None (props c) then
        (Raised (UpdateFailed (OfMessage "One of the needed props was None.")), w1)
      else if is_available w1 (api c) then (Returned (props c), w1)
      else
        match fst (_recover V w1) with
        | Returned _ =>
            (Returned (props c), store_is_available (api c) true (snd (_recover V w1)))
        | Raised e => (Raised e, snd (_recover V w1))
        end
  end.
Proof.
  unfold polled, fetched, _async_update_data.
  unfold bind at 1. unfold except_RoborockException. unfold bind at 1.
  destruct (_update_device_prop V w) as [[[]|e] w1]; simpl.
  - rewrite _set_current_map_run; simpl.
    set (w2 := match status (props (coordinator w1)) with
               | Some st => _ | None => _ end).
    unfold bind at 1, self at 1; simpl.
    destruct (needed_prop_is_None (props (coordinator w2))); [reflexivity|].
    unfold bind at 1, get at 1; simpl. unfold bind at 1.
    destruct (is_available w2 (api (coordinator w2))); simpl; [reflexivity|].
    destruct (_recover_run V w2) as [Hw _].
    unfold bind at 1.
    destruct (_recover V w2) as [[[]|e] w3]; simpl in *; subst w3; reflexivity.
  - destruct e; reflexivity.
Qed.

Lemma fetched_frame V w :
  api (coordinator (fetched V w)) = api (coordinator w)
  /\ cloud_api (coordinator (fetched V w)) = cloud_api (coordinator w)
  /\ needed_cache_keys (coordinator (fetched V w)) = needed_cache_keys (coordinator w)
  /\ current_map (coordinator (fetched V w)) = current_map (coordinator w)
  /\ maps (coordinator (fetched V w)) = maps (coordinator w)
  /\ data (coordinator (fetched V w)) = data (coordinator w)
  /\ is_available (fetched V w) = is_available w.
Proof.
  unfold fetched. rewrite _update_device_prop_run.
  destruct (get_prop V (trace w) (api (coordinator w))) as [[d|]|detail|n];
    simpl; auto 10.
  destruct (DeviceProp_bool V d); simpl; auto 10.
  destruct (DeviceProp_bool V (props (coordinator w))); simpl; auto 10.
Qed.

Lemma polled_frame V w :
  props (coordinator (polled V w)) = props (coordinator (fetched V w))
  /\ api (coordinator (polled V w)) = api (coordinator w)
  /\ needed_cache_keys (coordinator (polled V w)) = needed_cache_keys (coordinator w)
  /\ is_available (polled V w) = is_available w
  /\ trace (polled V w) = trace (fetched V w).
Proof.
  destruct (fetched_frame V w) as (Ha & _ & Hk & _ & _ & _ & Hav).
  unfold polled. rewrite _set_current_map_run; simpl.
  destruct (status (props (coordinator (fetched V w)))) as [st|]; [|auto].
  destruct (map_status st); simpl; auto.
Qed.

Lemma fetch_result V w :
  fst (_update_device_prop V w)
  = match get_prop V (trace w) (api (coordinator w)) with
    | Returns _ => Returned tt
    | RaisesRoborock d => Raised (RoborockException d)
    | RaisesOther n => Raised (OtherException n)
    end.
Proof.
  rewrite _update_device_prop_run.
  destruct (get_prop V (trace w) (api (coordinator w))) as [[d|]|detail|n];
    simpl; try reflexivity.
  destruct (DeviceProp_bool V d); simpl; [|reflexivity].
  destruct (DeviceProp_bool V (props (coordinator w))); reflexivity.
Qed.

Lemma read_all_raises V a keys w e :
  fst (read_all V a keys w) = Raised e ->
  (exists d, e = RoborockException d) \/ (exists n, e = OtherException n).
Proof.
  unfold read_all. revert w. induction keys as [|key rest IH]; intros w; simpl.
  - discriminate.
  - unfold await at 1; simpl.
    destruct (async_value V (trace w) a key) as [v|d|n]; simpl.
    + unfold bind. specialize (IH (record (AsyncValue a key) w)).
      destruct (gather _ _) as [[vs|e'] w2]; simpl in *; [discriminate|].
      intros [= <-]. apply IH. reflexivity.
    + intros [= <-]. eauto.
    + intros [= <-]. eauto.
Qed.

Lemma _recover_raises V w e :
  fst (_recover V w) = Raised e ->
  (exists d, e = RoborockException d) \/ (exists n, e = OtherException n).
Proof.
  unfold _recover, bind, self; simpl.
  pose proof (read_all_raises V (api (coordinator w))
                (needed_cache_keys (coordinator w)) w) as Hr.
  unfold read_all in Hr.
  destruct (gather _ w) as [[vs|e'] w2]; simpl in *; [discriminate|].
  intros [= <-]. apply Hr. reflexivity.
Qed.

Lemma update_returned_has_recovered V w p w' :
  is_available w (api (coordinator w)) = false ->
  _async_update_data V w = (Returned p, w') ->
  reads_return V (trace (fetched V w)) (api (coordinator w))
    (needed_cache_keys (coordinator w))
  /\ trace w'
     = trace (fetched V w)
       ++ map (AsyncValue (api (coordinator w))) (needed_cache_keys (coordinator w))
       ++ [SetIsAvailable (api (coordinator w)) true]
  /\ is_available w' (api (coordinator w)) = true
  /\ (forall r, r <> api (coordinator w) -> is_available w' r = is_available w r)
  /\ api (coordinator w') = api (coordinator w)
  /\ p = props (coordinator w').
Proof.
  intros Hav Hrun. rewrite _async_update_data_run in Hrun.
  destruct (polled_frame V w) as (Hp & Ha & Hk & Hia & Ht).
  destruct (fst (_update_device_prop V w)) as [[]|e].
  2: { destruct e; discriminate. }
  cbv zeta in Hrun.
  destruct (needed_prop_is_None _); [discriminate|].
  rewrite Hia, Ha, Hav in Hrun.
  destruct (_recover_run V (polled V w)) as [Hw Hret].
  rewrite Ha, Hk in Hw. rewrite Ha, Hk, Ht in Hret.
  destruct (fst (_recover V (polled V w))) as [[]|e]; [|discriminate].
  injection Hrun as <- <-. rewrite Hw. simpl.
  split; [apply Hret; reflexivity|].
  split; [rewrite Ht, app_assoc; reflexivity|].
  split; [apply decide_True; reflexivity|].
  split; [intros r Hr; rewrite decide_False by exact Hr; rewrite Hia; reflexivity|].
  auto.
Qed.

Lemma fetched_returned V w x :
  get_prop V (trace w) (api (coordinator w)) = Returns x ->
  props (coordinator (fetched V w))
  = stored_after_fetch V (props (coordinator w)) x
  /\ trace (fetched V w)
     = trace w ++ fetch_interactions V (api (coordinator w)) (props (coordinator w)) x.
Proof.
  intros Hx. unfold fetched, stored_after_fetch, fetch_interactions.
  rewrite _update_device_prop_run. cbv zeta. rewrite Hx.
  destruct x as [d|]; [|auto].
  destruct (DeviceProp_bool V d); [|auto].
  destruct (DeviceProp_bool V (props (coordinator w))); auto.
Qed.

(** C2, amended: when [api.is_available] is false and in the data update no
    vendor call raises (the fetch returns and every recovery read returns)
    and the needed props are set, the update reads, after the fetch, the
    cached value of every attribute of [needed_cache_keys], then sets
    [api.is_available] to true, and returns the stored props. *)
Theorem update_recovers_when_no_call_raises V w x :
  let a := api (coordinator w) in
  let stored := props (coordinator w) in
  let keys := needed_cache_keys (coordinator w) in
  is_available w a = false ->
  get_prop V (trace w) a = Returns x ->
  needed_prop_is_None (stored_after_fetch V stored x) = false ->
  reads_return V (trace w ++ fetch_interactions V a stored x) a keys ->
  let out := _async_update_data V w in
  fst out = Returned (stored_after_fetch V stored x)
  /\ props (coordinator (snd out)) = stored_after_fetch V stored x
  /\ trace (snd out)
     = trace w ++ fetch_interactions V a stored x
       ++ map (AsyncValue a) keys ++ [SetIsAvailable a true]
  /\ is_available (snd out) a = true
  /\ (forall r, r <> a -> is_available (snd out) r = is_available w r)
  /\ api (coordinator (snd out)) = a.
Proof.
  intros a stored keys Hav Hx Hset Hreads out. subst a stored keys out.
  destruct (fetched_returned V w x Hx) as [Hprops Htrace].
  assert (Hrun : _async_update_data V w
                 = (Returned (stored_after_fetch V (props (coordinator w)) x),
                    snd (_async_update_data V w))).
  { rewrite _async_update_data_run, fetch_result, Hx. cbv zeta.
    destruct (polled_frame V w) as (Hp & Ha & Hk & Hia & Ht).
    destruct (_recover_run V (polled V w)) as [_ Hret].
    rewrite Ha, Hk, Ht, Htrace in Hret.
    rewrite Hp, Hprops, Hset, Hia, Ha, Hav.
    rewrite (proj2 Hret Hreads). reflexivity. }
  destruct (update_returned_has_recovered V w _ _ Hav Hrun)
    as (_ & Ht & Htrue & Hothers & Hapi & Hp).
  rewrite Hrun at 1. simpl. rewrite <- Hp, Ht, Htrace, <- app_assoc. auto 10.
Qed.

(** C5, amended: [_async_update_data] raises [UpdateFailed] exactly when the
    fetch raises [RoborockException] or, the fetch having returned, one of
    consumable, clean_summary, status is None; when the fetch returns, the
    three props are set and either the api is available or every recovery
    read returns, it returns the stored props; an exception of another class
    raised by the fetch propagates as it is. *)
Theorem update_failed_exactly_or_props V w :
  ((exists arg, fst (_async_update_data V w) = Raised (UpdateFailed arg))
   <-> update_fails V w)
  /\ ((exists x, get_prop V (trace w) (api (coordinator w)) = Returns x) ->
      needed_prop_is_None (props (coordinator (fetched V w))) = false ->
      is_available w (api (coordinator w)) = true
      \/ reads_return V (trace (fetched V w)) (api (coordinator w))
           (needed_cache_keys (coordinator w)) ->
      fst (_async_update_data V w)
      = Returned (props (coordinator (snd (_async_update_data V w)))))
  /\ (forall n, get_prop V (trace w) (api (coordinator w)) = RaisesOther n ->
      fst (_async_update_data V w) = Raised (OtherException n)).
Proof.
  unfold update_fails.
  rewrite _async_update_data_run, fetch_result.
  destruct (polled_frame V w) as (Hp & Ha & Hk & Hia & Ht).
  destruct (_recover_run V (polled V w)) as [Hw Hret].
  rewrite Ha, Hk, Ht in Hret.
  pose proof (_recover_raises V (polled V w)) as Hraise.
  destruct (get_prop V (trace w) (api (coordinator w))) as [x|d|n]; cbv zeta.
  - rewrite Hp, Hia, Ha.
    destruct (needed_prop_is_None (props (coordinator (fetched V w)))) eqn:Hnone.
    { simpl. split; [split; eauto|]. split; [discriminate | discriminate]. }
    destruct (is_available w (api (coordinator w))) eqn:Hav; simpl.
    { rewrite Hp. split; [|split; [reflexivity | discriminate]].
      split; [intros [arg Harg]; discriminate|].
      intros [[d Hd]|[_ Hn]]; discriminate. }
    destruct (fst (_recover V (polled V w))) as [[]|e] eqn:Hrec; simpl.
    + rewrite Hw; simpl. rewrite Hp.
      split; [|split; [reflexivity | discriminate]].
      split; [intros [arg Harg]; discriminate|].
      intros [[d Hd]|[_ Hn]]; discriminate.
    + split; [|split; [|discriminate]].
      * split; [|intros [[d Hd]|[_ Hn]]; discriminate].
        intros [arg [= ->]].
        destruct (Hraise _ eq_refl) as [[d Hd]|[n Hn]]; discriminate.
      * intros _ _ [Hno|Hreads]; [discriminate|].
        apply Hret in Hreads. discriminate.
  - simpl. split; [split; eauto|].
    split; [intros [x Hx]; discriminate | discriminate].
  - simpl. split; [|split; [intros [x Hx]; discriminate | intros n' [= ->]; reflexivity]].
    split; [intros [arg Harg]; discriminate|].
    intros [[d Hd]|[[x Hx] _]]; discriminate.
Qed.

(** C6, amended: the value a successful poll returns is the stored snapshot:
    the fetched value when that is truthy and the stored one falsy; the
    stored one after the vendor's [update] merged the fetched value into it
    when both are truthy; the stored one as it was when the fetch returned
    None or a falsy value.  This code changes no field of it otherwise. *)
Theorem returned_snapshot_is_stored_after_merge V w p :
  fst (_async_update_data V w) = Returned p ->
  p = props (coordinator (snd (_async_update_data V w)))
  /\ exists x, get_prop V (trace w) (api (coordinator w)) = Returns x
     /\ p = match x with
            | Some d =>
                if DeviceProp_bool V d then
                  if DeviceProp_bool V (props (coordinator w))
                  then DeviceProp_update V (props (coordinator w)) d
                  else d
                else props (coordinator w)
            | None => props (coordinator w)
            end.
Proof.
  rewrite _async_update_data_run, fetch_result.
  destruct (polled_frame V w) as (Hp & Ha & Hk & Hia & Ht).
  destruct (_recover_run V (polled V w)) as [Hw _].
  assert (Hfetched : forall x,
            get_prop V (trace w) (api (coordinator w)) = Returns x ->
            props (coordinator (fetched V w))
            = match x with
              | Some d =>
                  if DeviceProp_bool V d then
                    if DeviceProp_bool V (props (coordinator w))
                    then DeviceProp_update V (props (coordinator w)) d
                    else d
                  else props (coordinator w)
              | None => props (coordinator w)
              end).
  { intros x Hx. unfold fetched. rewrite _update_device_prop_run, Hx.
    destruct x as [d|]; [|reflexivity].
    destruct (DeviceProp_bool V d); [|reflexivity].
    destruct (DeviceProp_bool V (props (coordinator w))); reflexivity. }
  destruct (get_prop V (trace w) (api (coordinator w))) as [x|d|n]; cbv zeta;
    [|discriminate..].
  specialize (Hfetched x eq_refl).
  destruct (needed_prop_is_None _); [discriminate|].
  destruct (is_available _ _); simpl.
  - intros [= <-]. rewrite Hp. eauto.
  - destruct (fst (_recover V (polled V w))) as [[]|e]; simpl; [|discriminate].
    intros [= <-]. rewrite Hw; simpl. rewrite Hp. eauto.
Qed.

Lemma poll_coordinator V w :
  coordinator (snd (_async_update_data V w))
  = match get_prop V (trace w) (api (coordinator w)) with
    | Returns _ => coordinator (polled V w)
    | _ => coordinator w
    end.
Proof.
  rewrite _async_update_data_run, fetch_result.
  destruct (_recover_run V (polled V w)) as [Hw _].
  assert (Hraise : (forall x, get_prop V (trace w) (api (coordinator w)) <> Returns x) ->
            coordinator (fetched V w) = coordinator w).
  { intros Hx. unfold fetched. rewrite _update_device_prop_run.
    destruct (get_prop V (trace w) (api (coordinator w))) as [x|d|n];
      [contradiction (Hx x); reflexivity | reflexivity | reflexivity]. }
  destruct (get_prop V (trace w) (api (coordinator w))) as [x|d|n]; cbv zeta;
    [|simpl; apply Hraise; discriminate..].
  destruct (needed_prop_is_None _); simpl; [reflexivity|].
  destruct (is_available _ _); simpl; [reflexivity|].
  destruct (fst (_recover V (polled V w))) as [[]|e]; simpl; rewrite Hw; reflexivity.
Qed.

(** C8, amended: after a data update whose fetch returned, the stored props
    are the stored snapshot merged with, or replaced by, the fetched value
    (the stored snapshot itself when nothing was fetched); if their status
    and its map_status are both set, [current_map] is (map_status - 3)
    floor-divided by 4; if that status or its map_status is None,
    [current_map] is as before.  When the fetch raised, the stored props and
    [current_map] are as before. *)
Theorem current_map_after_update V w :
  let c := coordinator w in
  let c' := coordinator (snd (_async_update_data V w)) in
  match get_prop V (trace w) (api c) with
  | Returns x =>
      props c' = stored_after_fetch V (props c) x
      /\ match status (stored_after_fetch V (props c) x) with
         | Some st =>
             match map_status st with
             | Some m => current_map c' = Some ((m - 3) `div` 4)%Z
             | None => current_map c' = current_map c
             end
         | None => current_map c' = current_map c
         end
  | _ => props c' = props c /\ current_map c' = current_map c
  end.
Proof.
  cbv zeta. rewrite poll_coordinator.
  destruct (fetched_frame V w) as (_ & _ & _ & Hcm & _).
  pose proof (fetched_returned V w) as Hfetched.
  destruct (get_prop V (trace w) (api (coordinator w))) as [x|d|n];
    [|auto..].
  destruct (Hfetched x eq_refl) as [Hprops _]. rewrite <- Hprops.
  unfold polled. rewrite _set_current_map_run; simpl.
  destruct (status (props (coordinator (fetched V w)))) as [st|]; [|auto].
  destruct (map_status st); simpl; auto.
Qed.

(** C10: if [get_prop] returns None or a falsy value, [_update_device_prop]
    leaves the stored props, and the whole coordinator, unchanged; if it
    returns a truthy value and the stored props are falsy, props become the
    fetched value, with no call of [update]; if both are truthy, props are
    merged by the vendor's [update].  Hence props change without a call of
    [update] only in the second case. *)
Theorem update_device_prop_cases V w :
  let a := api (coordinator w) in
  let stored := props (coordinator w) in
  let w' := snd (_update_device_prop V w) in
  (get_prop V (trace w) a = Returns None
   \/ (exists d, get_prop V (trace w) a = Returns (Some d)
                 /\ DeviceProp_bool V d = false) ->
   coordinator w' = coordinator w /\ trace w' = trace w ++ [GetProp a])
  /\ (forall d, get_prop V (trace w) a = Returns (Some d) ->
        DeviceProp_bool V d = true ->
        DeviceProp_bool V stored = false ->
        coordinator w' = set_props d (coordinator w)
        /\ trace w' = trace w ++ [GetProp a])
  /\ (forall d, get_prop V (trace w) a = Returns (Some d) ->
        DeviceProp_bool V d = true ->
        DeviceProp_bool V stored = true ->
        coordinator w' = set_props (DeviceProp_update V stored d) (coordinator w)
        /\ trace w' = trace w ++ [GetProp a; PropUpdate stored d])
  /\ (props (coordinator w') <> stored ->
      trace w' = trace w ++ [GetProp a] ->
      exists d, get_prop V (trace w) a = Returns (Some d)
                /\ DeviceProp_bool V d = true
                /\ DeviceProp_bool V stored = false
                /\ props (coordinator w') = d).
Proof.
  cbv zeta. rewrite _update_device_prop_run.
  destruct (get_prop V (trace w) (api (coordinator w))) as [[d|]|detail|n]; simpl.
  2-4: (split; [intros _; split; [destruct w as [[]]; reflexivity | reflexivity]|];
        split; [intros d' [=]|]; split; [intros d' [=]|];
        intros Hne; contradiction Hne; reflexivity).
  destruct (DeviceProp_bool V d) eqn:Hd; simpl.
  - destruct (DeviceProp_bool V (props (coordinator w))) eqn:Hs; simpl.
    + split; [intros [[=]|[d' [[= <-] Hf]]]; congruence|].
      split; [intros d' _ _ [=]|].
      split; [intros d' [= <-] _ _; auto|].
      intros _ Ht. apply app_inv_head in Ht. discriminate.
    + split; [intros [[=]|[d' [[= <-] Hf]]]; congruence|].
      split; [intros d' [= <-] _ _; auto|].
      split; [intros d' _ _ [=]|].
      intros _ _. eauto.
  - split; [intros _; split; [destruct w as [[]]; reflexivity | reflexivity]|].
    split; [intros d' [= <-]; congruence|].
    split; [intros d' [= <-]; congruence|].
    intros Hne. contradiction Hne. reflexivity.
Qed.

(** ** Commands *)

Lemma RoborockEntity_send_run V DOMAIN self command params w :
  RoborockEntity.send V DOMAIN self command params w =
  (match send_command V (trace w) (RoborockEntity._api self) command params with
   | Returns response => Returned response
   | RaisesRoborock d => Raised (HomeAssistantError (command_failed DOMAIN command params d))
   | RaisesOther n => Raised (OtherException n)
   end,
   record (SendCommand (RoborockEntity._api self) command params) w).
Proof.
  unfold RoborockEntity.send, bind, except_RoborockException, await; simpl.
  destruct (send_command V (trace w) (RoborockEntity._api self) command params);
    reflexivity.
Qed.

Lemma coordinated_send_run V DOMAIN async_refresh self command params w :
  RoborockCoordinatedEntity.send V DOMAIN async_refresh self command params w =
  let sent := record (SendCommand (RoborockEntity._api self) command params) w in
  match send_command V (trace w) (RoborockEntity._api self) command params with
  | Returns res =>
      (match fst (async_refresh sent) with
       | Returned _ => Returned res
       | Raised e => Raised e
       end, snd (async_refresh sent))
  | RaisesRoborock d =>
      (Raised (HomeAssistantError (command_failed DOMAIN command params d)), sent)
  | RaisesOther n => (Raised (OtherException n), sent)
  end.
Proof.
  unfold RoborockCoordinatedEntity.send.
  unfold bind at 1. rewrite RoborockEntity_send_run.
  destruct (send_command V (trace w) (RoborockEntity._api self) command params);
    simpl; try reflexivity.
  unfold bind. destruct (async_refresh _) as [[[]|e] w2]; reflexivity.
Qed.

(** C4: [RoborockEntity.send] raises [HomeAssistantError] if and only if
    [send_command] raises [RoborockException]; the error then carries the
    translation key command_failed.  When [send_command] returns, [send]
    returns the same response. *)
Theorem send_fails_iff_command_raises V DOMAIN self command params w :
  let answer := send_command V (trace w) (RoborockEntity._api self) command params in
  let out := RoborockEntity.send V DOMAIN self command params w in
  ((exists err, fst out = Raised (HomeAssistantError err))
   <-> (exists d, answer = RaisesRoborock d))
  /\ (forall d, answer = RaisesRoborock d ->
        fst out = Raised (HomeAssistantError (command_failed DOMAIN command params d)))
  /\ (forall response, answer = Returns response -> fst out = Returned response)
  /\ snd out = record (SendCommand (RoborockEntity._api self) command params) w.
Proof.
  cbv zeta. rewrite RoborockEntity_send_run.
  destruct (send_command V (trace w) (RoborockEntity._api self) command params)
    as [response|d|n]; simpl.
  - split; [split; [intros [err Herr]|intros [d Hd]]; discriminate|].
    split; [discriminate|]. split; [intros ? [= <-]; reflexivity | reflexivity].
  - split; [split; eauto|].
    split; [intros ? [= <-]; reflexivity|]. split; [discriminate | reflexivity].
  - split; [split; [intros [err Herr]|intros [d Hd]]; discriminate|].
    split; [discriminate|]. split; [discriminate | reflexivity].
Qed.

(** C9: in [RoborockCoordinatedEntity.send] the refresh runs only after the
    command has returned, from the world the command left, and the command's
    response is what [send] returns once the refresh has returned; if the
    command fails, the [HomeAssistantError] (any exception of the command)
    propagates and the world is the one the command left, whatever
    [async_refresh] is: no refresh is performed. *)
Theorem coordinated_send_refreshes_only_after_success
    V DOMAIN async_refresh self command params w :
  let answer := send_command V (trace w) (RoborockEntity._api self) command params in
  let sent := record (SendCommand (RoborockEntity._api self) command params) w in
  let out := RoborockCoordinatedEntity.send V DOMAIN async_refresh self command params w in
  (forall res, answer = Returns res ->
     snd out = snd (async_refresh sent)
     /\ (fst (async_refresh sent) = Returned tt -> fst out = Returned res)
     /\ (forall e, fst (async_refresh sent) = Raised e -> fst out = Raised e))
  /\ (forall d, answer = RaisesRoborock d ->
        out = (Raised (HomeAssistantError (command_failed DOMAIN command params d)), sent))
  /\ (forall e, fst (RoborockEntity.send V DOMAIN self command params w) = Raised e ->
        out = (Raised e, sent)).
Proof.
  cbv zeta. rewrite coordinated_send_run, RoborockEntity_send_run.
  destruct (send_command V (trace w) (RoborockEntity._api self) command params)
    as [response|d|n]; simpl.
  - split; [|split; [discriminate | discriminate]].
    intros res [= <-].
    destruct (async_refresh _) as [[[]|e] w2]; simpl.
    + split; [reflexivity|]. split; [reflexivity | discriminate].
    + split; [reflexivity|]. split; [discriminate | intros ? [= <-]; reflexivity].
  - split; [discriminate|].
    split; [intros ? [= <-]; reflexivity | intros ? [= <-]; reflexivity].
  - split; [discriminate|].
    split; [discriminate | intros ? [= <-]; reflexivity].
Qed.

(** ** The code step of the config flow *)

Import RoborockFlowHandler.

Lemma _code_login_run V code f :
  _code_login V code f =
  match _client (handler f) with
  | None => (Returned None, set_errors (<["base" := "unknown"]> (_errors (handler f))) f)
  | Some client =>
      let f1 := record (CodeLogin (client_username client) code) f in
      match code_login V (flow_trace f) (client_username client) code with
      | Returns ud => (Returned (Some ud), f1)
      | RaisesRoborock _ =>
          (Returned None,
           set_errors (<["base" := "invalid_code"]> (_errors (handler f))) f1)
      | RaisesOther n =>
          if isinstance_Exception (OtherException n) then
            (Returned None,
             set_errors (<["base" := "unknown"]> (_errors (handler f))) f1)
          else (Raised (OtherException n), f1)
      end
  end.
Proof.
  unfold _code_login, except_RoborockException_Exception.
  unfold bind at 1, RoborockFlowHandler.self at 1; simpl.
  destruct (_client (handler f)) as [client|]; simpl; [|reflexivity].
  unfold bind at 1, await; simpl.
  destruct (code_login V (flow_trace f) (client_username client) code)
    as [ud|d|n]; reflexivity.
Qed.

Lemma async_step_code_run V CONF_ENTRY_CODE user_input f :
  async_step_code V CONF_ENTRY_CODE user_input f =
  let f0 := set_errors ∅ f in
  match user_input with
  | None => _show_code_form CONF_ENTRY_CODE f0
  | Some input =>
      match input !! CONF_ENTRY_CODE with
      | None => (Raised (KeyError CONF_ENTRY_CODE), f0)
      | Some code =>
          let f1 := snd (_code_login V code f0) in
          match fst (_code_login V code f0), _username (handler f1) with
          | Returned (Some ud), Some username =>
              if UserData_bool V ud && str_bool username
              then _create_entry V username ud f1
              else _show_code_form CONF_ENTRY_CODE f1
          | Returned _, _ => _show_code_form CONF_ENTRY_CODE f1
          | Raised e, _ => (Raised e, f1)
          end
      end
  end.
Proof.
  unfold async_step_code. unfold bind at 1. simpl.
  destruct user_input as [input|]; [|reflexivity].
  unfold bind at 1.
  destruct (input !! CONF_ENTRY_CODE) as [code|]; simpl; [|reflexivity].
  unfold bind at 1.
  destruct (_code_login V code (set_errors ∅ f)) as [[[ud|]|e] f1]; simpl.
  - unfold bind at 1, RoborockFlowHandler.self at 1; simpl.
    destruct (_username (handler f1)) as [username|]; [|reflexivity].
    destruct (UserData_bool V ud && str_bool username); reflexivity.
  - unfold bind at 1, RoborockFlowHandler.self at 1; simpl.
    destruct (_username (handler f1)); reflexivity.
  - destruct (_username (handler f1)); reflexivity.
Qed.

(** C7, amended: in the code step, when [code_login] raises
    [RoborockException] the flow's errors are base: invalid_code and the
    code form is shown with them; when it raises another exception that
    derives from [Exception] they are base: unknown and the code form is
    shown; an exception that does not derive from [Exception] is raised by
    the step with no error set; and the step creates an entry only when
    [code_login] has returned user data, which the entry holds. *)
Theorem code_step_errors_and_entry V CONF_ENTRY_CODE user_input f :
  let out := async_step_code V CONF_ENTRY_CODE user_input f in
  (forall input code client,
     user_input = Some input ->
     input !! CONF_ENTRY_CODE = Some code ->
     _client (handler f) = Some client ->
     let answer := code_login V (flow_trace f) (client_username client) code in
     (forall d, answer = RaisesRoborock d ->
        _errors (handler (snd out)) = <["base" := "invalid_code"]> ∅
        /\ fst out = Returned (Form "code" (Required_str CONF_ENTRY_CODE)
                                 (<["base" := "invalid_code"]> ∅)))
     /\ (forall n, answer = RaisesOther n ->
        isinstance_Exception (OtherException n) = true ->
        _errors (handler (snd out)) = <["base" := "unknown"]> ∅
        /\ fst out = Returned (Form "code" (Required_str CONF_ENTRY_CODE)
                                 (<["base" := "unknown"]> ∅)))
     /\ (forall n, answer = RaisesOther n ->
        isinstance_Exception (OtherException n) = false ->
        _errors (handler (snd out)) = ∅
        /\ fst out = Raised (OtherException n)))
  /\ (forall title entry,
        fst out = Returned (CreateEntry title entry) ->
        exists input code client ud,
          user_input = Some input
          /\ input !! CONF_ENTRY_CODE = Some code
          /\ _client (handler f) = Some client
          /\ code_login V (flow_trace f) (client_username client) code = Returns ud
          /\ at_CONF_USER_DATA entry = ud
          /\ _username (handler f) = Some title).
Proof.
  cbv zeta. rewrite async_step_code_run. cbv zeta. split.
  - intros input code client -> Hcode Hclient. rewrite Hcode.
    rewrite _code_login_run. simpl. rewrite Hclient.
    split; [|split].
    + intros d ->. simpl. destruct (_username (handler f)); auto.
    + intros n -> Hn. cbv zeta. rewrite Hn. simpl.
      destruct (_username (handler f)); auto.
    + intros n -> Hn. cbv zeta. rewrite Hn. simpl.
      destruct (_username (handler f)); auto.
  - intros title entry. destruct user_input as [input|]; [|discriminate].
    destruct (input !! CONF_ENTRY_CODE) as [code|] eqn:Hcode; [|discriminate].
    rewrite _code_login_run. simpl.
    destruct (_client (handler f)) as [client|] eqn:Hclient; simpl.
    2: { destruct (_username (handler f)); discriminate. }
    destruct (code_login V (flow_trace f) (client_username client) code)
      as [ud|d|n] eqn:Hlogin; simpl.
    2: destruct (_username (handler f)); discriminate.
    2: { destruct (isinstance_Exception (OtherException n)); simpl;
         destruct (_username (handler f)); discriminate. }
    destruct (_username (handler f)) as [username|] eqn:Huser; [|discriminate].
    destruct (UserData_bool V ud && str_bool username); [|discriminate].
    unfold _create_entry, bind, RoborockFlowHandler.self, get; simpl.
    intros [= <- <-]. simpl.
    exists input, code, client, ud. auto 10.
Qed.

(** ** Concrete runs *)

(** C1 at a device the local client cannot reach. *)
Lemma verify_api_falls_back_at_unreachable :
  api (coordinator world_new) = RoborockLocalClient 0
  /\ fst (verify_api vendor_local_unreachable world_new) = Returned tt
  /\ trace (snd (verify_api vendor_local_unreachable world_new))
     = [Ping (RoborockLocalClient 0)]
  /\ api (coordinator (snd (verify_api vendor_local_unreachable world_new)))
     = RoborockMqttClient 1.
Proof.
  split; [reflexivity|].
  destruct (verify_api_pings_local_then_falls_back
              vendor_local_unreachable world_new 0 eq_refl) as (Ht & Hfail & _).
  destruct (Hfail "timeout" eq_refl) as (Hr & _ & Ha).
  split; [exact Hr|]. split; [exact Ht | exact Ha].
Defined.

(** C2, amended, at a coordinator whose client was unavailable, with two
    keys needed. *)
Lemma update_recovers_at_unavailable :
  is_available world_unavailable (api (coordinator world_unavailable)) = false
  /\ get_prop vendor_reachable (trace world_unavailable)
       (api (coordinator world_unavailable))
     = Returns (Some (complete_prop 7))
  /\ fst (_async_update_data vendor_reachable world_unavailable)
     = Returned (complete_prop 7)
  /\ trace (snd (_async_update_data vendor_reachable world_unavailable))
     = [GetProp (RoborockLocalClient 0);
        PropUpdate DeviceProp_new (complete_prop 7);
        AsyncValue (RoborockLocalClient 0) "dnd_timer";
        AsyncValue (RoborockLocalClient 0) "sound_volume";
        SetIsAvailable (RoborockLocalClient 0) true]
  /\ is_available (snd (_async_update_data vendor_reachable world_unavailable))
       (RoborockLocalClient 0) = true.
Proof.
  split; [reflexivity|]. split; [reflexivity|].
  destruct (update_recovers_when_no_call_raises vendor_reachable world_unavailable
              (Some (complete_prop 7)) eq_refl eq_refl eq_refl)
    as (Hret & _ & Ht & Hav & _).
  { simpl. eauto. }
  split; [exact Hret|]. split; [exact Ht | exact Hav].
Defined.

(** C3 on a run that verifies the api twice. *)
Lemma api_selected_once_at_unreachable :
  isinstance_RoborockLocalClient (cloud_api (coordinator world_new)) = false
  /\ api_changes vendor_local_unreachable
       [Call_verify_api; Call__async_update_data; Call_verify_api; Call_get_maps]
       world_new <= 1
  /\ (api (coordinator
             (run vendor_local_unreachable
                [Call_verify_api; Call__async_update_data; Call_verify_api;
                 Call_get_maps] world_new))
      = RoborockLocalClient 0
      \/ api (coordinator
                (run vendor_local_unreachable
                   [Call_verify_api; Call__async_update_data; Call_verify_api;
                    Call_get_maps] world_new))
         = RoborockMqttClient 1).
Proof.
  split; [reflexivity|].
  exact (proj2 (api_selected_once_never_back vendor_local_unreachable
                  [Call_verify_api; Call__async_update_data; Call_verify_api;
                   Call_get_maps] world_new eq_refl)).
Defined.

(** C6, amended, at the first poll of a new coordinator. *)
Lemma returned_snapshot_at_new :
  fst (_async_update_data vendor_reachable world_new) = Returned (complete_prop 7)
  /\ complete_prop 7
     = props (coordinator (snd (_async_update_data vendor_reachable world_new))).
Proof.
  split; [reflexivity|].
  exact (proj1 (returned_snapshot_is_stored_after_merge
                  vendor_reachable world_new (complete_prop 7) eq_refl)).
Defined.

(** C5 as stated fails: the recovery reads raise [RoborockException]; the fetch returned, the
    needed props are set, and the poll neither raises [UpdateFailed] nor
    returns the props. *)
Lemma update_raises_when_reads_fail :
  ~ update_failed_or_props vendor_reads_fail world_unavailable.
Proof.
  intros [_ Hreturns].
  assert (Hok : ~ update_fails vendor_reads_fail world_unavailable).
  { intros [[d Hd]|[_ Hnone]]; [discriminate Hd | vm_compute in Hnone; discriminate]. }
  specialize (Hreturns Hok). vm_compute in Hreturns. discriminate.
Qed.

(** C6 as stated fails: [get_prop] returns None and the stored props are complete; the poll
    returns the stored props, which [get_prop] did not return. *)
Lemma stale_snapshot_returned_when_nothing_fetched :
  ~ snapshot_is_fetched_value vendor_no_prop world_polled.
Proof.
  intros H. specialize (H (complete_prop 7) eq_refl). discriminate.
Qed.

Example update_raises_RoborockException_when_reads_fail :
  fst (_async_update_data vendor_reads_fail world_unavailable)
  = Raised (RoborockException "timeout").
Proof. reflexivity. Qed.

Example update_fails_when_fetch_raises :
  fst (_async_update_data vendor_offline world_polled)
  = Raised (UpdateFailed (OfException "timeout")).
Proof. reflexivity. Qed.

Example update_fails_when_props_missing :
  fst (_async_update_data vendor_no_prop world_new)
  = Raised (UpdateFailed (OfMessage "One of the needed props was None.")).
Proof. reflexivity. Qed.

Example nothing_fetched_leaves_coordinator :
  coordinator (snd (_update_device_prop vendor_no_prop world_polled))
  = coordinator world_polled.
Proof. reflexivity. Qed.

Example falsy_props_are_replaced :
  snd (_update_device_prop vendor_empty_is_falsy world_new)
  = with_coordinator (set_props (complete_prop 11))
      (record_all [GetProp (RoborockLocalClient 0)] world_new).
Proof. reflexivity. Qed.

Example truthy_props_are_merged :
  snd (_update_device_prop vendor_empty_is_falsy world_polled)
  = with_coordinator (set_props (complete_prop 11))
      (record_all [GetProp (RoborockLocalClient 0);
                   PropUpdate (complete_prop 7) (complete_prop 11)] world_polled).
Proof. reflexivity. Qed.

Example current_map_of_map_status_7 :
  current_map (coordinator (snd (_async_update_data vendor_reachable world_new)))
  = Some 1%Z.
Proof. reflexivity. Qed.

Example floor_division_below_3 :
  current_map
    (coordinator
       (snd (_set_current_map
               (with_coordinator (set_props (complete_prop 2)) world_new))))
  = Some (-1)%Z.
Proof. reflexivity. Qed.

Example send_fails_at_unreachable :
  fst (RoborockEntity.send vendor_local_unreachable "roborock"
         (RoborockEntity.__init__ "dnd" (RoborockLocalClient 0))
         (CommandEnum "SET_DND_TIMER") (ParamsList [1; 1; 7; 0]%Z) world_new)
  = Raised (HomeAssistantError
              (command_failed "roborock" (CommandEnum "SET_DND_TIMER")
                 (ParamsList [1; 1; 7; 0]%Z) "timeout")).
Proof. reflexivity. Qed.

Example coordinated_send_skips_refresh_at_unreachable :
  trace (snd (RoborockCoordinatedEntity.send vendor_local_unreachable "roborock"
                (fun w => (Returned tt, invoke vendor_local_unreachable
                                          Call__async_update_data w))
                (RoborockEntity.__init__ "dnd" (RoborockLocalClient 0))
                (CommandStr "set_dnd_timer") ParamsNone world_new))
  = [SendCommand (RoborockLocalClient 0) (CommandStr "set_dnd_timer") ParamsNone].
Proof. reflexivity. Qed.

Example coordinated_send_refreshes_at_reachable :
  RoborockCoordinatedEntity.send vendor_reachable "roborock"
    (fun w => (Returned tt, invoke vendor_reachable Call__async_update_data w))
    (RoborockEntity.__init__ "dnd" (RoborockLocalClient 0))
    (CommandStr "set_dnd_timer") ParamsNone world_new
  = (Returned [("result", 1%Z)],
     with_coordinator (set_current_map (Some 1%Z))
       (with_coordinator (set_props (complete_prop 7))
          (record_all [SendCommand (RoborockLocalClient 0)
                         (CommandStr "set_dnd_timer") ParamsNone;
                       GetProp (RoborockLocalClient 0);
                       PropUpdate DeviceProp_new (complete_prop 7)]
             world_new))).
Proof. reflexivity. Qed.

Example code_step_invalid_code :
  fst (async_step_code vendor_local_unreachable "code"
         (Some (<["code" := "123456"]> ∅)) flow_after_user_step)
  = Returned (Form "code" (Required_str "code") (<["base" := "invalid_code"]> ∅)).
Proof. reflexivity. Qed.

Example code_step_unknown :
  fst (async_step_code vendor_reads_fail "code"
         (Some (<["code" := "123456"]> ∅)) flow_after_user_step)
  = Returned (Form "code" (Required_str "code") (<["base" := "unknown"]> ∅)).
Proof. reflexivity. Qed.

Example code_step_creates_entry :
  fst (async_step_code vendor_reachable "code"
         (Some (<["code" := "123456"]> ∅)) flow_after_user_step)
  = Returned (CreateEntry "user@example.com"
                {| at_CONF_USERNAME := "user@example.com";
                   at_CONF_USER_DATA := {| user_data_fields := [] |};
                   at_CONF_BASE_URL := "https://euiot.roborock.com" |}).
Proof. reflexivity. Qed.

(** ** Further properties of the coordinator *)

Lemma release_run V w :
  release V w
  = (reply_result (async_disconnect V (trace w) (api (coordinator w))),
     record_all [AsyncDisconnect (api (coordinator w))] w).
Proof. reflexivity. Qed.

Lemma verify_api_run V w :
  verify_api V w =
  if isinstance_RoborockLocalClient (api (coordinator w)) then
    match ping V (trace w) (api (coordinator w)) with
    | Returns _ => (Returned tt, record_all [Ping (api (coordinator w))] w)
    | RaisesRoborock _ =>
        (Returned tt,
         with_coordinator (set_api (cloud_api (coordinator w)))
           (record_all [Ping (api (coordinator w))] w))
    | RaisesOther n =>
        (Raised (OtherException n), record_all [Ping (api (coordinator w))] w)
    end
  else (Returned tt, w).
Proof.
  unfold verify_api, bind, self; simpl.
  destruct (isinstance_RoborockLocalClient (api (coordinator w))); [|reflexivity].
  unfold except_RoborockException, await; simpl.
  destruct (ping V (trace w) (api (coordinator w))) as [[]|d|n]; reflexivity.
Qed.

Lemma for_each_add_maps infos w :
  for_each infos (fun roborock_map =>
    modify (with_coordinator (fun c =>
      set_maps (<[name roborock_map := mapFlag roborock_map]> (maps c)) c))) w
  = (Returned tt,
     with_coordinator (fun c => set_maps (add_maps infos (maps c)) c) w).
Proof.
  revert w. induction infos as [|i rest IH]; intros w; simpl.
  - destruct w as [[]]; reflexivity.
  - unfold bind, modify at 1. rewrite IH. reflexivity.
Qed.

Lemma get_maps_run V w :
  get_maps V w =
  let a := api (coordinator w) in
  let w1 := record_all [GetMultiMapsList a] w in
  match get_multi_maps_list V (trace w) a with
  | Returns (Some {| map_info := Some infos |}) =>
      (Returned tt,
       with_coordinator (fun c => set_maps (add_maps infos (maps c)) c) w1)
  | Returns _ => (Returned tt, w1)
  | RaisesRoborock d => (Raised (RoborockException d), w1)
  | RaisesOther n => (Raised (OtherException n), w1)
  end.
Proof.
  unfold get_maps, bind, self, await; simpl.
  destruct (get_multi_maps_list V (trace w) (api (coordinator w)))
    as [[[[infos|]]|]|d|n]; simpl; try reflexivity.
  rewrite for_each_add_maps. reflexivity.
Qed.

Lemma add_maps_lookup_other infos m n :
  n ∉ map name infos -> add_maps infos m !! n = m !! n.
Proof.
  unfold add_maps. revert m. induction infos as [|i rest IH]; intros m Hn; simpl.
  - reflexivity.
  - simpl in Hn. apply not_elem_of_cons in Hn as [Hne Hrest].
    rewrite IH by exact Hrest. apply lookup_insert_ne. congruence.
Qed.

Lemma add_maps_lookup_last l1 i l2 m :
  name i ∉ map name l2 ->
  add_maps (l1 ++ i :: l2) m !! name i = Some (mapFlag i).
Proof.
  intros Hlast. unfold add_maps. rewrite fold_left_app. simpl.
  fold (add_maps l2 (<[name i := mapFlag i]>
                       (fold_left (fun acc roborock_map =>
                          <[name roborock_map := mapFlag roborock_map]> acc) l1 m))).
  rewrite add_maps_lookup_other by exact Hlast. apply lookup_insert_eq.
Qed.

Lemma add_maps_keeps infos m n :
  is_Some (m !! n) -> is_Some (add_maps infos m !! n).
Proof.
  unfold add_maps. revert m. induction infos as [|i rest IH]; intros m Hm; simpl.
  - exact Hm.
  - apply IH. destruct (decide (name i = n)) as [<-|Hne].
    + rewrite lookup_insert_eq. eauto.
    + rewrite lookup_insert_ne by exact Hne. exact Hm.
Qed.

(** X1: when [get_multi_maps_list] returns a list of maps, [get_maps]
    leaves under each listed name the flag of the last map of that name in
    the list, and leaves the entry of every name that is not listed as it
    was. *)
Theorem get_maps_last_flag_wins V w infos :
  get_multi_maps_list V (trace w) (api (coordinator w))
  = Returns (Some {| map_info := Some infos |}) ->
  fst (get_maps V w) = Returned tt
  /\ (forall l1 i l2,
        infos = l1 ++ i :: l2 ->
        name i ∉ map name l2 ->
        maps (coordinator (snd (get_maps V w))) !! name i = Some (mapFlag i))
  /\ (forall n,
        n ∉ map name infos ->
        maps (coordinator (snd (get_maps V w))) !! n = maps (coordinator w) !! n).
Proof.
  intros Hreply. rewrite get_maps_run. cbv zeta. rewrite Hreply. simpl.
  split; [reflexivity|]. split.
  - intros l1 i l2 -> Hlast. apply add_maps_lookup_last. exact Hlast.
  - intros n Hn. apply add_maps_lookup_other. exact Hn.
Qed.

(** X2: [get_maps] never forgets a map: whatever the vendor answers, a name
    that was mapped is still mapped afterwards.  An exception of
    [get_multi_maps_list] is raised as it is, [RoborockException] included,
    and then, as when there is no list, the coordinator is unchanged. *)
Theorem get_maps_never_forgets V w :
  (forall n, is_Some (maps (coordinator w) !! n) ->
             is_Some (maps (coordinator (snd (get_maps V w))) !! n))
  /\ fst (get_maps V w)
     = match get_multi_maps_list V (trace w) (api (coordinator w)) with
       | Returns _ => Returned tt
       | RaisesRoborock d => Raised (RoborockException d)
       | RaisesOther n => Raised (OtherException n)
       end
  /\ ((forall infos, get_multi_maps_list V (trace w) (api (coordinator w))
                     <> Returns (Some {| map_info := Some infos |})) ->
      coordinator (snd (get_maps V w)) = coordinator w)
  /\ trace (snd (get_maps V w))
     = trace w ++ [GetMultiMapsList (api (coordinator w))].
Proof.
  rewrite get_maps_run. cbv zeta.
  destruct (get_multi_maps_list V (trace w) (api (coordinator w)))
    as [[[[infos|]]|]|d|n]; simpl; repeat split; auto.
  - intros n. apply add_maps_keeps.
  - intros Hno. contradiction (Hno infos). reflexivity.
Qed.

Lemma extends_refl a w : extends a w w.
Proof.
  split; [exists []; rewrite app_nil_r; auto | auto].
Qed.

Lemma extends_trans a w1 w2 w3 :
  extends a w1 w2 -> extends a w2 w3 -> extends a w1 w3.
Proof.
  intros [[e1 [Ht1 Hf1]] Hav1] [[e2 [Ht2 Hf2]] Hav2]. split.
  - exists (e1 ++ e2). rewrite Ht2, Ht1, app_assoc. split; [reflexivity|].
    apply Forall_app; auto.
  - intros r. destruct (Hav2 r) as [H2|[-> H2]]; [|auto].
    rewrite H2. apply Hav1.
Qed.

Lemma extends_record_all a evs w :
  Forall (on_client a) evs -> extends a w (record_all evs w).
Proof. intros Hevs. split; [exists evs; auto | auto]. Qed.

Lemma extends_with_coordinator a f w w' :
  extends a w w' -> extends a w (with_coordinator f w').
Proof. intros H. exact H. Qed.

Lemma extends_store a w :
  extends a w (store_is_available a true w).
Proof.
  split.
  - exists [SetIsAvailable a true]. split; [reflexivity|].
    constructor; [|constructor]. intros c [= <-]. reflexivity.
  - intros r. simpl. case_decide; auto.
Qed.

Lemma on_client_call a (ev : ClientRef -> Event) :
  (forall c, event_client (ev c) = Some c) -> Forall (on_client a) [ev a].
Proof.
  intros Hev. constructor; [|constructor].
  intros c Hc. rewrite Hev in Hc. congruence.
Qed.

Lemma fetched_extends V w : extends (api (coordinator w)) w (fetched V w).
Proof.
  assert (Hget : Forall (on_client (api (coordinator w)))
                   [GetProp (api (coordinator w))]).
  { apply (on_client_call _ GetProp). reflexivity. }
  assert (Hupd : forall s d, Forall (on_client (api (coordinator w)))
                   [GetProp (api (coordinator w)); PropUpdate s d]).
  { intros s d. constructor; [exact (Forall_inv Hget)|].
    constructor; [|constructor]. intros c [=]. }
  unfold fetched. rewrite _update_device_prop_run. cbv zeta.
  destruct (get_prop V (trace w) (api (coordinator w))) as [[d|]|detail|n];
    simpl; try (apply extends_record_all; exact Hget).
  destruct (DeviceProp_bool V d); simpl; [|apply extends_record_all; exact Hget].
  destruct (DeviceProp_bool V (props (coordinator w))); simpl;
    apply extends_with_coordinator, extends_record_all; auto.
Qed.

Lemma polled_extends V w : extends (api (coordinator w)) w (polled V w).
Proof.
  unfold polled. rewrite _set_current_map_run. simpl.
  destruct (status (props (coordinator (fetched V w)))) as [st|];
    [|apply fetched_extends].
  destruct (map_status st);
    [apply extends_with_coordinator|]; apply fetched_extends.
Qed.

Lemma _recover_extends V w :
  extends (api (coordinator w)) w (snd (_recover V w)).
Proof.
  destruct (_recover_run V w) as [-> _]. apply extends_record_all.
  apply Forall_forall. intros ev Hev.
  apply list_elem_of_fmap in Hev as [key [-> _]].
  intros c [= <-]. reflexivity.
Qed.

Lemma _async_update_data_extends V w :
  extends (api (coordinator w)) w (snd (_async_update_data V w)).
Proof.
  rewrite _async_update_data_run.
  destruct (polled_frame V w) as (_ & Ha & _).
  pose proof (_recover_extends V (polled V w)) as Hrec. rewrite Ha in Hrec.
  destruct (_recover_run V (polled V w)) as [Hw _].
  destruct (fst (_update_device_prop V w)) as [[]|e].
  2: { destruct e; simpl; apply fetched_extends. }
  cbv zeta. destruct (needed_prop_is_None _); simpl; [apply polled_extends|].
  destruct (is_available _ _); simpl; [apply polled_extends|].
  destruct (fst (_recover V (polled V w))) as [[]|e]; simpl.
  - rewrite Ha. eapply extends_trans; [apply polled_extends|].
    eapply extends_trans; [exact Hrec|]. apply extends_store.
  - eapply extends_trans; [apply polled_extends | exact Hrec].
Qed.

Lemma invoke_extends V call w :
  extends (api (coordinator w)) w (invoke V call w).
Proof.
  destruct call; unfold invoke.
  - rewrite verify_api_run.
    destruct (isinstance_RoborockLocalClient (api (coordinator w)));
      [|apply extends_refl].
    destruct (ping V (trace w) (api (coordinator w))); simpl;
      try apply extends_with_coordinator;
      apply extends_record_all, (on_client_call _ Ping); reflexivity.
  - rewrite release_run. simpl.
    apply extends_record_all, (on_client_call _ AsyncDisconnect); reflexivity.
  - apply _recover_extends.
  - apply fetched_extends.
  - apply _async_update_data_extends.
  - rewrite _set_current_map_run. simpl.
    destruct (status (props (coordinator w))) as [st|]; [|apply extends_refl].
    destruct (map_status st);
      [apply extends_with_coordinator|]; apply extends_refl.
  - rewrite get_maps_run. cbv zeta.
    destruct (get_multi_maps_list V (trace w) (api (coordinator w)))
      as [[[[infos|]]|]|d|n]; simpl;
      try apply extends_with_coordinator;
      apply extends_record_all, (on_client_call _ GetMultiMapsList); reflexivity.
  - apply (extends_with_coordinator _ _ w (with_coordinator _ w)),
      extends_with_coordinator, extends_refl.
Qed.

Lemma run_api_cases V calls w :
  api (coordinator (run V calls w)) = api (coordinator w)
  \/ api (coordinator (run V calls w)) = cloud_api (coordinator w).
Proof.
  revert w. induction calls as [|call rest IH]; intros w; simpl; [auto|].
  destruct (invoke_selection V call w) as [Hc Hstep].
  destruct (IH (invoke V call w)) as [Hrun|Hrun]; rewrite Hrun.
  - destruct Hstep as [->|[_ ->]]; auto.
  - rewrite Hc. auto.
Qed.

(** X3: in any run of coordinator methods that ends with the client in
    [api] it started with, every interaction with a client was with that
    client, and no other client's [is_available] was written.  So while the
    local client is kept the cloud client is never contacted, and after the
    fallback the local client is never contacted again. *)
Theorem run_contacts_only_selected_client V calls w :
  api (coordinator (run V calls w)) = api (coordinator w) ->
  extends (api (coordinator w)) w (run V calls w).
Proof.
  revert w. induction calls as [|call rest IH]; intros w Hsame; simpl in *.
  { apply extends_refl. }
  destruct (invoke_selection V call w) as [Hc [Hstep|[_ Hstep]]].
  - eapply extends_trans; [apply invoke_extends|].
    rewrite <- Hstep. apply IH. congruence.
  - destruct (decide (cloud_api (coordinator w) = api (coordinator w))) as [Heq|Hne].
    + eapply extends_trans; [apply invoke_extends|].
      assert (Hapi : api (coordinator (invoke V call w)) = api (coordinator w))
        by congruence.
      rewrite <- Hapi. apply IH. congruence.
    + exfalso. destruct (run_api_cases V rest (invoke V call w)) as [Hrun|Hrun];
        congruence.
Qed.

(** X4: no run of coordinator methods makes a client unavailable: for every
    client, [is_available] is after the run what it was before, or it is
    true and the client is the run's first [api] or its [cloud_api]. *)
Theorem run_never_marks_unavailable V calls w r :
  is_available (run V calls w) r = is_available w r
  \/ ((r = api (coordinator w) \/ r = cloud_api (coordinator w))
      /\ is_available (run V calls w) r = true).
Proof.
  revert w. induction calls as [|call rest IH]; intros w; simpl; [auto|].
  destruct (invoke_selection V call w) as [Hc Hstep].
  destruct (invoke_extends V call w) as [_ Hav].
  destruct (IH (invoke V call w)) as [Hrun|[Hr Hrun]].
  - rewrite Hrun. destruct (Hav r) as [->|[-> Htrue]]; auto.
  - right. split; [|exact Hrun].
    rewrite Hc in Hr. destruct Hr as [-> | ->]; [|auto].
    destruct Hstep as [->|[_ ->]]; auto.
Qed.

Lemma poll_available_run V w :
  is_available w (api (coordinator w)) = true ->
  snd (_async_update_data V w)
  = match get_prop V (trace w) (api (coordinator w)) with
    | Returns _ => polled V w
    | _ => fetched V w
    end.
Proof.
  intros Hav. rewrite _async_update_data_run, fetch_result.
  destruct (polled_frame V w) as (_ & Ha & _ & Hia & _).
  destruct (get_prop V (trace w) (api (coordinator w))) as [x|d|n];
    [|reflexivity..].
  cbv zeta. rewrite Hia, Ha, Hav.
  destruct (needed_prop_is_None _); reflexivity.
Qed.

(** X5: after a data update that returned, [api.is_available] is true, so
    the next data update, whatever the vendor then answers, reads no cached
    attribute and writes no [is_available]: its only interactions are those
    of its fetch. *)
Theorem update_after_success_skips_recovery V w p w1 :
  _async_update_data V w = (Returned p, w1) ->
  is_available w1 (api (coordinator w1)) = true
  /\ forall V2,
       trace (snd (_async_update_data V2 w1)) = trace (fetched V2 w1)
       /\ is_available (snd (_async_update_data V2 w1)) = is_available w1.
Proof.
  intros Hrun.
  assert (Hav : is_available w1 (api (coordinator w1)) = true).
  { rewrite _async_update_data_run in Hrun.
    destruct (polled_frame V w) as (_ & Ha & _ & Hia & _).
    destruct (_recover_run V (polled V w)) as [Hw _].
    destruct (fst (_update_device_prop V w)) as [[]|e].
    2: { destruct e; discriminate. }
    cbv zeta in Hrun. destruct (needed_prop_is_None _); [discriminate|].
    destruct (is_available (polled V w) (api (coordinator (polled V w)))) eqn:Hp.
    - injection Hrun as _ <-. exact Hp.
    - destruct (fst (_recover V (polled V w))) as [[]|e]; [|discriminate].
      injection Hrun as _ <-. rewrite Hw. simpl. apply decide_True. reflexivity. }
  split; [exact Hav|]. intros V2.
  rewrite (poll_available_run V2 w1 Hav).
  destruct (polled_frame V2 w1) as (_ & _ & _ & Hia & Ht).
  destruct (fetched_frame V2 w1) as (_ & _ & _ & _ & _ & _ & Hif).
  destruct (get_prop V2 (trace w1) (api (coordinator w1))); auto.
Qed.

(** X6: the map status encodes the map flag as flag * 4 + 3, and
    [_set_current_map] inverts it: when the stored status has map_status
    flag * 4 + 3, [current_map] becomes flag. *)
Theorem current_map_inverts_map_status w st flag :
  status (props (coordinator w)) = Some st ->
  map_status st = Some (flag * 4 + 3)%Z ->
  current_map (coordinator (snd (_set_current_map w))) = Some flag.
Proof.
  intros Hst Hm. rewrite _set_current_map_run. simpl. rewrite Hst, Hm. simpl.
  f_equal. replace (flag * 4 + 3 - 3)%Z with (flag * 4)%Z by lia.
  apply Z.div_mul. lia.
Qed.

(** X7: when the fetch raises, the data update changes nothing: the
    coordinator and every [is_available] are as before and the one
    interaction is the [get_prop] call; [RoborockException] becomes
    [UpdateFailed] carrying it, another exception is raised as it is. *)
Theorem failed_fetch_changes_nothing V w :
  let a := api (coordinator w) in
  (forall d, get_prop V (trace w) a = RaisesRoborock d ->
     _async_update_data V w
     = (Raised (UpdateFailed (OfException d)), record_all [GetProp a] w))
  /\ (forall n, get_prop V (trace w) a = RaisesOther n ->
     _async_update_data V w
     = (Raised (OtherException n), record_all [GetProp a] w)).
Proof.
  cbv zeta. split; intros x Hx; rewrite _async_update_data_run, fetch_result;
    unfold fetched; rewrite _update_device_prop_run; cbv zeta; rewrite Hx;
    reflexivity.
Qed.

(** X8: a data update that raises [UpdateFailed] has read no cached
    attribute and has written no [is_available]: its interactions are those
    of its fetch, even when the api was unavailable. *)
Theorem update_failed_skips_recovery V w arg :
  fst (_async_update_data V w) = Raised (UpdateFailed arg) ->
  trace (snd (_async_update_data V w)) = trace (fetched V w)
  /\ is_available (snd (_async_update_data V w)) = is_available w.
Proof.
  rewrite _async_update_data_run.
  destruct (polled_frame V w) as (_ & _ & _ & Hia & Ht).
  destruct (fetched_frame V w) as (_ & _ & _ & _ & _ & _ & Hif).
  pose proof (_recover_raises V (polled V w)) as Hraise.
  destruct (fst (_update_device_prop V w)) as [[]|e].
  2: { destruct e; simpl; auto. }
  cbv zeta. destruct (needed_prop_is_None _); simpl; [auto|].
  destruct (is_available _ _); simpl; [discriminate|].
  destruct (fst (_recover V (polled V w))) as [[]|e]; simpl; [discriminate|].
  intros [= ->]. destruct (Hraise _ eq_refl) as [[d Hd]|[n Hn]]; discriminate.
Qed.

Lemma update_coordinator_shape V w :
  let c := coordinator w in
  let c' := coordinator (snd (_async_update_data V w)) in
  c' = set_current_map (current_map c') (set_props (props c') c).
Proof.
  cbv zeta. rewrite poll_coordinator.
  destruct (get_prop V (trace w) (api (coordinator w))) as [x|d|n];
    [|destruct w as [[]]; reflexivity..].
  destruct (fetched_frame V w) as (Ha & Hc & Hk & _ & Hm & Hd & _).
  assert (Hf : coordinator (fetched V w)
               = set_current_map (current_map (coordinator (fetched V w)))
                   (set_props (props (coordinator (fetched V w))) (coordinator w))).
  { unfold set_current_map, set_props; simpl.
    rewrite <- Ha, <- Hc, <- Hk, <- Hm, <- Hd.
    destruct (coordinator (fetched V w)); reflexivity. }
  unfold polled. rewrite _set_current_map_run. simpl.
  destruct (status (props (coordinator (fetched V w)))) as [st|]; [|exact Hf].
  destruct (map_status st); [|exact Hf].
  simpl. rewrite Hf at 1. reflexivity.
Qed.

(** X9: a data update assigns none of [api], [cloud_api],
    [needed_cache_keys] and [maps]: they are after it what they were
    before, whatever the vendor answers. *)
Theorem update_keeps_other_fields V w :
  let c := coordinator w in
  let c' := coordinator (snd (_async_update_data V w)) in
  api c' = api c
  /\ cloud_api c' = cloud_api c
  /\ needed_cache_keys c' = needed_cache_keys c
  /\ maps c' = maps c.
Proof.
  cbv zeta. rewrite (update_coordinator_shape V w). simpl. auto.
Qed.

(** X10: [release] disconnects the client that [api] holds and no other:
    when [verify_api] has fallen back to the cloud client, the following
    [release] disconnects the cloud client and the local client is not
    disconnected. *)
Theorem release_after_fallback_disconnects_cloud V w id d :
  api (coordinator w) = RoborockLocalClient id ->
  ping V (trace w) (RoborockLocalClient id) = RaisesRoborock d ->
  let w1 := snd (verify_api V w) in
  trace (snd (release V w1))
  = trace w ++ [Ping (RoborockLocalClient id);
                AsyncDisconnect (cloud_api (coordinator w))]
  /\ coordinator (snd (release V w1)) = coordinator w1
  /\ fst (release V w1)
     = reply_result (async_disconnect V (trace w1) (cloud_api (coordinator w))).
Proof.
  intros Hapi Hping. cbv zeta. rewrite release_run, verify_api_run.
  rewrite Hapi. simpl. rewrite Hping. simpl.
  rewrite <- app_assoc. auto.
Qed.

(** X11: an entity keeps the client that was the coordinator's [api] when
    the entity was made.  After [verify_api] has fallen back, an entity made
    before the fallback still sends its commands to the local client, and an
    entity made after it sends them to the cloud client. *)
Theorem entity_keeps_client_of_construction
    V DOMAIN w id d unique_id command params :
  api (coordinator w) = RoborockLocalClient id ->
  ping V (trace w) (RoborockLocalClient id) = RaisesRoborock d ->
  let w1 := snd (verify_api V w) in
  let before := RoborockCoordinatedEntity.__init__ unique_id (coordinator w) in
  let after := RoborockCoordinatedEntity.__init__ unique_id (coordinator w1) in
  api (coordinator w1) = cloud_api (coordinator w)
  /\ trace (snd (RoborockEntity.send V DOMAIN before command params w1))
     = trace w1 ++ [SendCommand (RoborockLocalClient id) command params]
  /\ trace (snd (RoborockEntity.send V DOMAIN after command params w1))
     = trace w1 ++ [SendCommand (cloud_api (coordinator w)) command params].
Proof.
  intros Hapi Hping. cbv zeta. rewrite !RoborockEntity_send_run.
  rewrite verify_api_run, Hapi. simpl. rewrite Hping. simpl.
  rewrite Hapi. auto.
Qed.

(** X12: after the listener has received a value, [_device_status] returns
    without raising: the received status when the value is a [Status], the
    stored status when it is a [Consumable].  Without data, that is before
    any refresh or listener call, [_device_status] raises [AttributeError]. *)
Theorem device_status_after_listener value w :
  fst ((RoborockCoordinatedEntity._update_from_listener value ;;
        RoborockCoordinatedEntity._device_status) w)
  = Returned (match value with
              | inl st => Some st
              | inr _ => status (props (coordinator w))
              end)
  /\ (data (coordinator w) = None ->
      fst (RoborockCoordinatedEntity._device_status w)
      = Raised (OtherException "AttributeError")).
Proof.
  split.
  - destruct value; reflexivity.
  - intros Hd. unfold RoborockCoordinatedEntity._device_status, bind, self. simpl.
    rewrite Hd. reflexivity.
Qed.

(** X13: the listener stores a received status without touching
    [current_map]; the next data update whose fetch returns nothing sets
    [current_map] from that status: with map_status m it becomes
    (m - 3) floor-divided by 4. *)
Theorem update_after_listener_uses_received_status V w st m :
  map_status st = Some m ->
  let w1 := snd (RoborockCoordinatedEntity._update_from_listener (inl st) w) in
  get_prop V (trace w1) (api (coordinator w1)) = Returns None ->
  current_map (coordinator w1) = current_map (coordinator w)
  /\ current_map (coordinator (snd (_async_update_data V w1)))
     = Some ((m - 3) `div` 4)%Z.
Proof.
  intros Hm w1 Hget. split; [reflexivity|].
  rewrite poll_coordinator, Hget.
  unfold polled, fetched. rewrite _update_device_prop_run. cbv zeta.
  rewrite Hget. rewrite _set_current_map_run. simpl. rewrite Hm. reflexivity.
Qed.

(** ** Further properties of the code step *)

(** X14: a code submitted while the flow has no client (the assertion in
    [_code_login] fails inside its try block) is answered with the code form
    and the error base: unknown; [code_login] is not called. *)
Theorem code_step_without_client V CONF_ENTRY_CODE input code f :
  input !! CONF_ENTRY_CODE = Some code ->
  _client (handler f) = None ->
  async_step_code V CONF_ENTRY_CODE (Some input) f
  = (Returned (Form "code" (Required_str CONF_ENTRY_CODE) (<["base" := "unknown"]> ∅)),
     set_errors (<["base" := "unknown"]> ∅) f).
Proof.
  intros Hcode Hclient. rewrite async_step_code_run. cbv zeta.
  rewrite Hcode, _code_login_run. simpl. rewrite Hclient. simpl.
  destruct (_username (handler f)); reflexivity.
Qed.

(** X15: the errors of an earlier step never survive a code step: whatever
    they were, after the step they are empty, base: invalid_code or
    base: unknown; a form the step returns is the code form showing exactly
    these errors; and the step changes nothing else of the handler. *)
Theorem code_step_errors_are_fresh V CONF_ENTRY_CODE user_input f :
  let out := async_step_code V CONF_ENTRY_CODE user_input f in
  (_errors (handler (snd out)) = ∅
   \/ _errors (handler (snd out)) = <["base" := "invalid_code"]> ∅
   \/ _errors (handler (snd out)) = <["base" := "unknown"]> ∅)
  /\ (forall step_id schema errors,
        fst out = Returned (Form step_id schema errors) ->
        step_id = "code" /\ schema = Required_str CONF_ENTRY_CODE
        /\ errors = _errors (handler (snd out)))
  /\ _username (handler (snd out)) = _username (handler f)
  /\ _client (handler (snd out)) = _client (handler f)
  /\ _auth_method (handler (snd out)) = _auth_method (handler f).
Proof.
  assert (Hform : forall (step_id0 : string) schema0 errors0 step_id schema errors,
            Returned (Form step_id0 schema0 errors0)
            = Returned (Form step_id schema errors) ->
            step_id0 = "code" -> schema0 = Required_str CONF_ENTRY_CODE ->
            forall e, errors0 = e ->
            step_id = "code" /\ schema = Required_str CONF_ENTRY_CODE /\ errors = e).
  { intros ? ? ? ? ? ? [= <- <- <-] -> -> e ->. auto. }
  cbv zeta. rewrite async_step_code_run. cbv zeta.
  destruct user_input as [input|].
  2: { simpl. split; [auto|]. split; [|auto 6].
       intros ? ? ? H. eapply Hform; [exact H|reflexivity..]. }
  destruct (input !! CONF_ENTRY_CODE) as [code|].
  2: { simpl. split; [auto|]. split; [discriminate | auto 6]. }
  rewrite _code_login_run. simpl.
  destruct (_client (handler f)) as [client|] eqn:Hclient; simpl.
  2: { destruct (_username (handler f)); simpl; (split; [auto|]);
         (split; [|auto 6]); intros ? ? ? H;
         (eapply Hform; [exact H|reflexivity..]). }
  destruct (code_login V (flow_trace f) (client_username client) code)
    as [ud|d|n]; simpl.
  3: destruct (isinstance_Exception (OtherException n)); simpl.
  4: { destruct (_username (handler f)); simpl; (split; [auto|]);
         (split; [discriminate | auto 6]). }
  2-3: destruct (_username (handler f)); simpl; (split; [auto|]);
         (split; [|auto 6]); intros ? ? ? H;
         (eapply Hform; [exact H|reflexivity..]).
  destruct (_username (handler f)) as [username|]; simpl.
  2: { split; [auto|]. split; [|auto 6].
       intros ? ? ? H. eapply Hform; [exact H|reflexivity..]. }
  destruct (UserData_bool V ud && str_bool username); simpl.
  - unfold _create_entry, bind, RoborockFlowHandler.self, get; simpl.
    split; [auto|]. split; [discriminate | auto 6].
  - split; [auto|]. split; [|auto 6].
    intros ? ? ? H. eapply Hform; [exact H|reflexivity..].
Qed.

(** X16: a code step without input shows the code form with no error and
    calls nothing; an input without the code key raises [KeyError] once the
    errors are cleared, and calls nothing either. *)
Theorem code_step_without_code V CONF_ENTRY_CODE f :
  async_step_code V CONF_ENTRY_CODE None f
  = (Returned (Form "code" (Required_str CONF_ENTRY_CODE) ∅), set_errors ∅ f)
  /\ (forall input,
        input !! CONF_ENTRY_CODE = None ->
        async_step_code V CONF_ENTRY_CODE (Some input) f
        = (Raised (KeyError CONF_ENTRY_CODE), set_errors ∅ f)).
Proof.
  split.
  - reflexivity.
  - intros input Hcode. rewrite async_step_code_run. cbv zeta.
    rewrite Hcode. reflexivity.
Qed.

(** X17: when [code_login] returns user data that is falsy, or the flow has
    no username or an empty one, the login was made but no entry is
    created: the code form is shown again, with no error. *)
Theorem code_step_reprompts_without_error V CONF_ENTRY_CODE input code client ud f :
  input !! CONF_ENTRY_CODE = Some code ->
  _client (handler f) = Some client ->
  code_login V (flow_trace f) (client_username client) code = Returns ud ->
  UserData_bool V ud = false
  \/ _username (handler f) = None
  \/ _username (handler f) = Some "" ->
  async_step_code V CONF_ENTRY_CODE (Some input) f
  = (Returned (Form "code" (Required_str CONF_ENTRY_CODE) ∅),
     record (CodeLogin (client_username client) code) (set_errors ∅ f)).
Proof.
  intros Hcode Hclient Hlogin Hfalsy. rewrite async_step_code_run. cbv zeta.
  rewrite Hcode, _code_login_run. simpl. rewrite Hclient. simpl.
  rewrite Hlogin. simpl.
  destruct Hfalsy as [Hud|[Hu|Hu]].
  - rewrite Hud. destruct (_username (handler f)); reflexivity.
  - rewrite Hu. reflexivity.
  - rewrite Hu. rewrite andb_false_r. reflexivity.
Qed.

Lemma async_step_code_valid_run
    V CONF_ENTRY_CODE input code client ud username f :
  input !! CONF_ENTRY_CODE = Some code ->
  _client (handler f) = Some client ->
  code_login V (flow_trace f) (client_username client) code = Returns ud ->
  UserData_bool V ud = true ->
  _username (handler f) = Some username ->
  username <> "" ->
  async_step_code V CONF_ENTRY_CODE (Some input) f
  = (Returned
       (CreateEntry username
          {| at_CONF_USERNAME := username;
             at_CONF_USER_DATA := ud;
             at_CONF_BASE_URL :=
               base_url V (flow_trace f ++ [CodeLogin (client_username client) code])
                 (client_username client) |}),
     record (CodeLogin (client_username client) code) (set_errors ∅ f)).
Proof.
  intros Hcode Hclient Hlogin Hud Hu Hne. rewrite async_step_code_run. cbv zeta.
  rewrite Hcode, _code_login_run. simpl. rewrite Hclient. simpl.
  rewrite Hlogin. simpl. rewrite Hu, Hud. simpl.
  unfold str_bool. rewrite bool_decide_eq_false_2 by exact Hne. simpl.
  unfold _create_entry, bind, RoborockFlowHandler.self, get; simpl.
  rewrite ?Hclient. reflexivity.
Qed.

(** X18: when [code_login] returns truthy user data and the flow has a
    non-empty username, the code step creates the entry: its title and its
    username are the flow's username, it holds the returned user data and
    the client's [base_url] as read after the login, and no error is set. *)
Theorem code_step_creates_entry_for_valid_code
    V CONF_ENTRY_CODE input code client ud username f :
  input !! CONF_ENTRY_CODE = Some code ->
  _client (handler f) = Some client ->
  code_login V (flow_trace f) (client_username client) code = Returns ud ->
  UserData_bool V ud = true ->
  _username (handler f) = Some username ->
  username <> "" ->
  async_step_code V CONF_ENTRY_CODE (Some input) f
  = (Returned
       (CreateEntry username
          {| at_CONF_USERNAME := username;
             at_CONF_USER_DATA := ud;
             at_CONF_BASE_URL :=
               base_url V (flow_trace f ++ [CodeLogin (client_username client) code])
                 (client_username client) |}),
     record (CodeLogin (client_username client) code) (set_errors ∅ f)).
Proof. apply async_step_code_valid_run. Qed.

(** ** The user step of the config flow *)

Import RoborockFlowHandlerUserStep.

Lemma async_step_user_run V CONF_USERNAME CONF_ENTRY_CODE lower
    set_unique_id abort_if_configured request_code user_input u :
  async_step_user V CONF_USERNAME CONF_ENTRY_CODE lower set_unique_id
    abort_if_configured request_code user_input u =
  let u0 := on_flow (set_errors ∅) u in
  match user_input with
  | None => (Returned (Form "user" (Required_str CONF_USERNAME) ∅), u0)
  | Some input =>
      match input !! CONF_USERNAME with
      | None => (Raised (KeyError CONF_USERNAME), u0)
      | Some username =>
          match set_unique_id (lower username) with
          | Raised e => (Raised e, u0)
          | Returned _ =>
              match abort_if_configured (lower username) with
              | Raised e => (Raised e, u0)
              | Returned _ =>
                  let u1 := {| flow := set_username (Some username) (flow u0);
                               requested := requested u ++ [username] |} in
                  match request_code (requested u) username with
                  | Returns _ =>
                      (Returned (Form "code" (Required_str CONF_ENTRY_CODE) ∅),
                       on_flow (set_client (Some {| client_username := username |})) u1)
                  | RaisesRoborock _ =>
                      (Returned (Form "user" (Required_str CONF_USERNAME)
                                   (<["base" := "invalid_email"]> ∅)),
                       on_flow (set_errors (<["base" := "invalid_email"]> ∅)) u1)
                  | RaisesOther n =>
                      if isinstance_Exception (OtherException n) then
                        (Returned (Form "user" (Required_str CONF_USERNAME)
                                     (<["base" := "unknown"]> ∅)),
                         on_flow (set_errors (<["base" := "unknown"]> ∅)) u1)
                      else (Raised (OtherException n), u1)
                  end
              end
          end
      end
  end.
Proof.
  unfold async_step_user. unfold bind at 1. simpl.
  destruct user_input as [input|]; [|reflexivity].
  unfold bind at 1, bind at 1.
  destruct (input !! CONF_USERNAME) as [username|]; simpl; [|reflexivity].
  unfold bind at 1, platform at 1.
  destruct (set_unique_id (lower username)) as [[]|e]; [|reflexivity].
  unfold bind at 1, platform at 1.
  destruct (abort_if_configured (lower username)) as [[]|e]; [|reflexivity].
  unfold bind at 1, modify at 1.
  unfold except_RoborockException_Exception, bind at 1, await_request_code.
  simpl.
  destruct (request_code (requested u) username) as [[]|d|n]; try reflexivity.
  simpl. destruct (isinstance_Exception (OtherException n)); reflexivity.
Qed.

(** X19: in the user step, once the platform has accepted the unique id, a
    [RoborockException] from the request of the code shows the user form
    with base: invalid_email, and another exception that derives from
    [Exception] shows it with base: unknown; an exception that does not
    derive from [Exception] is raised by the step with no error set.  In
    each case the username given is kept, the flow's client is not
    replaced, and the request is the step's only call to the vendor. *)
Theorem user_step_translates_request_failure
    V CONF_USERNAME CONF_ENTRY_CODE lower set_unique_id abort_if_configured
    request_code input username u :
  input !! CONF_USERNAME = Some username ->
  set_unique_id (lower username) = Returned tt ->
  abort_if_configured (lower username) = Returned tt ->
  let out := async_step_user V CONF_USERNAME CONF_ENTRY_CODE lower set_unique_id
               abort_if_configured request_code (Some input) u in
  let kept :=
    _username (handler (flow (snd out))) = Some username
    /\ _client (handler (flow (snd out))) = _client (handler (flow u))
    /\ requested (snd out) = requested u ++ [username]
    /\ flow_trace (flow (snd out)) = flow_trace (flow u) in
  let shows error :=
    fst out = Returned (Form "user" (Required_str CONF_USERNAME) (<["base" := error]> ∅))
    /\ _errors (handler (flow (snd out))) = <["base" := error]> ∅
    /\ kept in
  (forall d, request_code (requested u) username = RaisesRoborock d ->
     shows "invalid_email")
  /\ (forall n, request_code (requested u) username = RaisesOther n ->
     isinstance_Exception (OtherException n) = true ->
     shows "unknown")
  /\ (forall n, request_code (requested u) username = RaisesOther n ->
     isinstance_Exception (OtherException n) = false ->
     fst out = Raised (OtherException n)
     /\ _errors (handler (flow (snd out))) = ∅
     /\ kept).
Proof.
  intros Hin Hset Habort. cbv zeta. rewrite async_step_user_run. cbv zeta.
  rewrite Hin, Hset, Habort.
  split; [|split].
  - intros x ->. simpl. auto 10.
  - intros x -> Hx. rewrite Hx. simpl. auto 10.
  - intros x -> Hx. rewrite Hx. simpl. auto 10.
Qed.

(** X20: in the user step, when the platform has accepted the unique id and
    the code has been requested, the step ends in the code step without
    input: the code form is shown with no error, the flow keeps the username
    as it was given and a client made for it, and no login is attempted. *)
Theorem user_step_proceeds_to_code_form
    V CONF_USERNAME CONF_ENTRY_CODE lower set_unique_id abort_if_configured
    request_code input username u :
  input !! CONF_USERNAME = Some username ->
  set_unique_id (lower username) = Returned tt ->
  abort_if_configured (lower username) = Returned tt ->
  request_code (requested u) username = Returns tt ->
  let out := async_step_user V CONF_USERNAME CONF_ENTRY_CODE lower set_unique_id
               abort_if_configured request_code (Some input) u in
  fst out = Returned (Form "code" (Required_str CONF_ENTRY_CODE) ∅)
  /\ _errors (handler (flow (snd out))) = ∅
  /\ _username (handler (flow (snd out))) = Some username
  /\ _client (handler (flow (snd out))) = Some {| client_username := username |}
  /\ requested (snd out) = requested u ++ [username]
  /\ flow_trace (flow (snd out)) = flow_trace (flow u).
Proof.
  intros Hin Hset Habort Hreq. cbv zeta. rewrite async_step_user_run. cbv zeta.
  rewrite Hin, Hset, Habort, Hreq. simpl. auto 10.
Qed.

(** X21: the user step requests no code and keeps the flow's username and
    client when it has no input (the user form is shown with no error),
    when the input lacks the username ([KeyError]), or when the platform
    raises on the unique id (the exception is raised as it is). *)
Theorem user_step_stops_before_request
    V CONF_USERNAME CONF_ENTRY_CODE lower set_unique_id abort_if_configured
    request_code u :
  let step := async_step_user V CONF_USERNAME CONF_ENTRY_CODE lower set_unique_id
                abort_if_configured request_code in
  step None u
  = (Returned (Form "user" (Required_str CONF_USERNAME) ∅), on_flow (set_errors ∅) u)
  /\ (forall input, input !! CONF_USERNAME = None ->
        step (Some input) u
        = (Raised (KeyError CONF_USERNAME), on_flow (set_errors ∅) u))
  /\ (forall input username e,
        input !! CONF_USERNAME = Some username ->
        set_unique_id (lower username) = Raised e
        \/ (set_unique_id (lower username) = Returned tt
            /\ abort_if_configured (lower username) = Raised e) ->
        step (Some input) u = (Raised e, on_flow (set_errors ∅) u)).
Proof.
  cbv zeta. split; [reflexivity|]. split.
  - intros input Hin. rewrite async_step_user_run. cbv zeta. rewrite Hin.
    reflexivity.
  - intros input username e Hin Hgate. rewrite async_step_user_run. cbv zeta.
    rewrite Hin. destruct Hgate as [->|[-> ->]]; reflexivity.
Qed.

(** X22: a user step that requested the code followed by a code step whose
    login returns truthy user data creates the entry for the username as it
    was given to the user step (the unique id is its lower case, the title
    is not), provided that username is not empty. *)
Theorem user_then_code_creates_entry
    V CONF_USERNAME CONF_ENTRY_CODE lower set_unique_id abort_if_configured
    request_code input username code_input code ud u :
  input !! CONF_USERNAME = Some username ->
  set_unique_id (lower username) = Returned tt ->
  abort_if_configured (lower username) = Returned tt ->
  request_code (requested u) username = Returns tt ->
  code_input !! CONF_ENTRY_CODE = Some code ->
  code_login V (flow_trace (flow u)) username code = Returns ud ->
  UserData_bool V ud = true ->
  username <> "" ->
  let u1 := snd (async_step_user V CONF_USERNAME CONF_ENTRY_CODE lower
                   set_unique_id abort_if_configured request_code (Some input) u) in
  fst (lift (async_step_code V CONF_ENTRY_CODE (Some code_input)) u1)
  = Returned
      (CreateEntry username
         {| at_CONF_USERNAME := username;
            at_CONF_USER_DATA := ud;
            at_CONF_BASE_URL :=
              base_url V (flow_trace (flow u) ++ [CodeLogin username code]) username |}).
Proof.
  intros Hin Hset Habort Hreq Hcode Hlogin Hud Hne. cbv zeta.
  rewrite async_step_user_run. cbv zeta. rewrite Hin, Hset, Habort, Hreq.
  unfold lift. simpl.
  rewrite (async_step_code_valid_run V CONF_ENTRY_CODE code_input code
             {| client_username := username |} ud username
             (set_client (Some {| client_username := username |})
                (set_username (Some username) (set_errors ∅ (flow u))))
             Hcode eq_refl Hlogin Hud eq_refl Hne).
  reflexivity.
Qed.

(** ** The OralB entry set-up *)

Lemma oralb_setup_run DOMAIN forward entry h :
  OralB.async_setup_entry DOMAIN forward entry h =
  match OralB.unique_id entry with
  | None => (Raised AssertionError, h)
  | Some a =>
      let coordinator := {| OralB.address := a |} in
      let stored :=
        <[DOMAIN := <[OralB.entry_id entry := coordinator]>
                      (default ∅ (OralB.hass_data h !! DOMAIN))]> (OralB.hass_data h) in
      let calls :=
        OralB.platform_calls h
        ++ [OralB.ForwardEntrySetups (OralB.entry_id entry) OralB.PLATFORMS] in
      match forward (OralB.platform_calls h) (OralB.entry_id entry) with
      | Returned _ =>
          (Returned true,
           {| OralB.hass_data := stored;
              OralB.on_unload := OralB.on_unload h ++ [(OralB.entry_id entry, coordinator)];
              OralB.platform_calls := calls |})
      | Raised e =>
          (Raised e,
           {| OralB.hass_data := stored;
              OralB.on_unload := OralB.on_unload h;
              OralB.platform_calls := calls |})
      end
  end.
Proof.
  unfold OralB.async_setup_entry.
  destruct (OralB.unique_id entry) as [a|]; [|reflexivity].
  unfold bind, modify, OralB.await_platform; simpl.
  destruct (forward (OralB.platform_calls h) (OralB.entry_id entry)) as [[]|e];
    reflexivity.
Qed.

Lemma oralb_unload_run DOMAIN unload_platforms entry h :
  OralB.async_unload_entry DOMAIN unload_platforms entry h =
  let calls :=
    OralB.platform_calls h
    ++ [OralB.UnloadPlatforms (OralB.entry_id entry) OralB.PLATFORMS] in
  let h1 := {| OralB.hass_data := OralB.hass_data h;
               OralB.on_unload := OralB.on_unload h;
               OralB.platform_calls := calls |} in
  match unload_platforms (OralB.platform_calls h) (OralB.entry_id entry) with
  | Raised e => (Raised e, h1)
  | Returned false => (Returned false, h1)
  | Returned true =>
      match OralB.hass_data h !! DOMAIN with
      | None => (Raised (KeyError DOMAIN), h1)
      | Some coordinators =>
          match coordinators !! OralB.entry_id entry with
          | None => (Raised (KeyError (OralB.entry_id entry)), h1)
          | Some _ =>
              (Returned true,
               OralB.set_hass_data
                 (<[DOMAIN := delete (OralB.entry_id entry) coordinators]>
                    (OralB.hass_data h)) h1)
          end
      end
  end.
Proof.
  unfold OralB.async_unload_entry, bind, OralB.await_platform; simpl.
  destruct (unload_platforms (OralB.platform_calls h) (OralB.entry_id entry))
    as [[|]|e]; simpl; try reflexivity.
  destruct (OralB.hass_data h !! DOMAIN) as [coordinators|]; simpl;
    [|reflexivity].
  destruct (coordinators !! OralB.entry_id entry); reflexivity.
Qed.

(** X23: [async_setup_entry] of an entry without unique id raises
    [AssertionError] and changes nothing.  For an entry with a unique id it
    stores, before it forwards the set-up, a coordinator for that address
    under the entry's id, leaving the other entries of the domain and the
    other domains as they were; so the coordinator is stored even when the
    forwarding raises, and it is started (registered for the entry's
    unload) only when the forwarding returned, the result then being True. *)
Theorem oralb_setup_stores_before_forwarding DOMAIN forward entry h :
  let out := OralB.async_setup_entry DOMAIN forward entry h in
  (OralB.unique_id entry = None -> out = (Raised AssertionError, h))
  /\ (forall a, OralB.unique_id entry = Some a ->
        (exists coordinators,
           OralB.hass_data (snd out) !! DOMAIN = Some coordinators
           /\ coordinators !! OralB.entry_id entry = Some {| OralB.address := a |}
           /\ forall other, other <> OralB.entry_id entry ->
                coordinators !! other
                = default ∅ (OralB.hass_data h !! DOMAIN) !! other)
        /\ (forall domain, domain <> DOMAIN ->
              OralB.hass_data (snd out) !! domain = OralB.hass_data h !! domain)
        /\ match forward (OralB.platform_calls h) (OralB.entry_id entry) with
           | Returned _ =>
               fst out = Returned true
               /\ OralB.on_unload (snd out)
                  = OralB.on_unload h
                    ++ [(OralB.entry_id entry, {| OralB.address := a |})]
           | Raised e =>
               fst out = Raised e /\ OralB.on_unload (snd out) = OralB.on_unload h
           end).
Proof.
  cbv zeta.
  rewrite oralb_setup_run.
  split; [intros ->; reflexivity|].
  intros a ->. cbv zeta.
  split; [|split].
  - eexists. split; [|split].
    + destruct (forward _ _); simpl; apply lookup_insert_eq.
    + apply lookup_insert_eq.
    + intros other Hother. apply lookup_insert_ne. congruence.
  - intros domain Hd.
    destruct (forward _ _); simpl; apply lookup_insert_ne; congruence.
  - destruct (forward _ _); simpl; auto.
Qed.

(** X24: unloading an entry after its set-up, when the platforms unload,
    returns True and removes the entry's coordinator again: the domain's
    coordinators are those before the set-up without this entry (exactly
    those before it when the entry was not among them), the domain itself
    stays in [hass.data], and the other domains are untouched. *)
Theorem oralb_unload_after_setup DOMAIN forward unload_platforms entry a h :
  OralB.unique_id entry = Some a ->
  let h1 := snd (OralB.async_setup_entry DOMAIN forward entry h) in
  unload_platforms (OralB.platform_calls h1) (OralB.entry_id entry) = Returned true ->
  let out := OralB.async_unload_entry DOMAIN unload_platforms entry h1 in
  let before := default ∅ (OralB.hass_data h !! DOMAIN) in
  fst out = Returned true
  /\ OralB.hass_data (snd out) !! DOMAIN
     = Some (delete (OralB.entry_id entry) before)
  /\ (before !! OralB.entry_id entry = None ->
      OralB.hass_data (snd out) !! DOMAIN = Some before)
  /\ (forall domain, domain <> DOMAIN ->
        OralB.hass_data (snd out) !! domain = OralB.hass_data h !! domain).
Proof.
  intros Hid h1 Hunload out before.
  assert (Hdata : OralB.hass_data h1
                  = <[DOMAIN := <[OralB.entry_id entry := {| OralB.address := a |}]>
                                  before]> (OralB.hass_data h)).
  { unfold h1. rewrite oralb_setup_run, Hid. cbv zeta.
    destruct (forward _ _); reflexivity. }
  unfold out. rewrite oralb_unload_run. cbv zeta. rewrite Hunload, Hdata.
  rewrite lookup_insert_eq, lookup_insert_eq. simpl.
  rewrite insert_insert_eq, delete_insert_eq.
  split; [reflexivity|]. split; [apply lookup_insert_eq|]. split.
  - intros Hnone. rewrite lookup_insert_eq. f_equal. apply delete_id. exact Hnone.
  - intros domain Hd. apply lookup_insert_ne. congruence.
Qed.

(** X25: [async_unload_entry] returns what the platform's unloading returns
    and touches [hass.data] only when that is True: on False, or when the
    unloading raises, [hass.data] is unchanged; on True it removes the
    entry's coordinator from the domain and keeps everything else, and it
    raises [KeyError] when the domain or the entry is not stored. *)
Theorem oralb_unload_cases DOMAIN unload_platforms entry h :
  let out := OralB.async_unload_entry DOMAIN unload_platforms entry h in
  match unload_platforms (OralB.platform_calls h) (OralB.entry_id entry) with
  | Raised e => fst out = Raised e /\ OralB.hass_data (snd out) = OralB.hass_data h
  | Returned false =>
      fst out = Returned false /\ OralB.hass_data (snd out) = OralB.hass_data h
  | Returned true =>
      match OralB.hass_data h !! DOMAIN with
      | None =>
          fst out = Raised (KeyError DOMAIN)
          /\ OralB.hass_data (snd out) = OralB.hass_data h
      | Some coordinators =>
          match coordinators !! OralB.entry_id entry with
          | None =>
              fst out = Raised (KeyError (OralB.entry_id entry))
              /\ OralB.hass_data (snd out) = OralB.hass_data h
          | Some _ =>
              fst out = Returned true
              /\ (exists remaining,
                    OralB.hass_data (snd out) !! DOMAIN = Some remaining
                    /\ remaining !! OralB.entry_id entry = None
                    /\ forall other, other <> OralB.entry_id entry ->
                         remaining !! other = coordinators !! other)
              /\ (forall domain, domain <> DOMAIN ->
                    OralB.hass_data (snd out) !! domain
                    = OralB.hass_data h !! domain)
          end
      end
  end.
Proof.
  cbv zeta. rewrite oralb_unload_run. cbv zeta.
  destruct (unload_platforms (OralB.platform_calls h) (OralB.entry_id entry))
    as [[|]|e]; simpl; auto.
  destruct (OralB.hass_data h !! DOMAIN) as [coordinators|]; simpl; auto.
  destruct (coordinators !! OralB.entry_id entry); simpl; auto.
  split; [reflexivity|]. split.
  - eexists. split; [apply lookup_insert_eq|]. split.
    + apply lookup_delete_eq.
    + intros other Hother. apply lookup_delete_ne. congruence.
  - intros domain Hd. apply lookup_insert_ne. congruence.
Qed.

(** ** Concrete runs of the further properties *)

(** X1 at a device whose ground floor is listed twice. *)
Lemma get_maps_at_two_floors :
  get_multi_maps_list vendor_two_floors (trace world_new) (api (coordinator world_new))
  = Returns (Some {| map_info :=
                       Some ([ {| name := "Ground"; mapFlag := 0 |};
                               {| name := "First"; mapFlag := 1 |} ]
                             ++ {| name := "Ground"; mapFlag := 2 |} :: [])%Z |})
  /\ maps (coordinator (snd (get_maps vendor_two_floors world_new))) !! "Ground"
     = Some 2%Z
  /\ maps (coordinator (snd (get_maps vendor_two_floors world_new))) !! "Cellar"
     = None.
Proof.
  split; [reflexivity|].
  destruct (get_maps_last_flag_wins vendor_two_floors world_new _ eq_refl)
    as (_ & Hlast & Hother).
  split.
  - apply (Hlast [ {| name := "Ground"; mapFlag := 0 |};
                   {| name := "First"; mapFlag := 1 |} ]%Z
                 {| name := "Ground"; mapFlag := 2 |} [] eq_refl).
    apply not_elem_of_nil.
  - rewrite (Hother "Cellar"); [reflexivity|].
    intros Hin. repeat (apply elem_of_cons in Hin as [Hin|Hin]; [discriminate|]).
    apply elem_of_nil in Hin. exact Hin.
Defined.

(** X3 on a run after the fallback. *)
Lemma run_after_fallback_contacts_cloud_only :
  api (coordinator (run vendor_reachable
                      [Call_verify_api; Call__async_update_data; Call_get_maps;
                       Call_release] world_fallen_back))
  = api (coordinator world_fallen_back)
  /\ extends (RoborockMqttClient 1) world_fallen_back
       (run vendor_reachable
          [Call_verify_api; Call__async_update_data; Call_get_maps; Call_release]
          world_fallen_back).
Proof.
  split; [reflexivity|].
  exact (run_contacts_only_selected_client vendor_reachable
           [Call_verify_api; Call__async_update_data; Call_get_maps; Call_release]
           world_fallen_back eq_refl).
Defined.

(** X5 at a coordinator whose client was unavailable. *)
Lemma second_update_skips_recovery_at_unavailable :
  _async_update_data vendor_reachable world_unavailable
  = (Returned (complete_prop 7),
     snd (_async_update_data vendor_reachable world_unavailable))
  /\ is_available (snd (_async_update_data vendor_reachable world_unavailable))
       (RoborockLocalClient 0) = true
  /\ trace (snd (_async_update_data vendor_reads_fail
                   (snd (_async_update_data vendor_reachable world_unavailable))))
     = trace (fetched vendor_reads_fail
                (snd (_async_update_data vendor_reachable world_unavailable))).
Proof.
  split; [reflexivity|].
  destruct (update_after_success_skips_recovery vendor_reachable world_unavailable
              (complete_prop 7)
              (snd (_async_update_data vendor_reachable world_unavailable)) eq_refl)
    as [Hav Hnext].
  split; [exact Hav | exact (proj1 (Hnext vendor_reads_fail))].
Defined.

(** X6 at map status 11, the status of map flag 2. *)
Lemma current_map_of_flag_2 :
  status (props (coordinator (with_coordinator (set_props (complete_prop 11)) world_new)))
  = Some status_of_flag_2
  /\ map_status status_of_flag_2 = Some (2 * 4 + 3)%Z
  /\ current_map
       (coordinator
          (snd (_set_current_map
                  (with_coordinator (set_props (complete_prop 11)) world_new))))
     = Some 2%Z.
Proof.
  split; [reflexivity|]. split; [reflexivity|].
  exact (current_map_inverts_map_status
           (with_coordinator (set_props (complete_prop 11)) world_new)
           status_of_flag_2 2 eq_refl eq_refl).
Defined.

(** X8 at an unavailable client whose device answers nothing. *)
Lemma update_failed_at_offline :
  fst (_async_update_data vendor_offline world_unavailable)
  = Raised (UpdateFailed (OfException "timeout"))
  /\ trace (snd (_async_update_data vendor_offline world_unavailable))
     = [GetProp (RoborockLocalClient 0)]
  /\ is_available (snd (_async_update_data vendor_offline world_unavailable))
     = is_available world_unavailable.
Proof.
  split; [reflexivity|].
  exact (update_failed_skips_recovery vendor_offline world_unavailable
           (OfException "timeout") eq_refl).
Defined.

(** X10 at a device the local client cannot reach. *)
Lemma release_after_fallback_at_unreachable :
  api (coordinator world_new) = RoborockLocalClient 0
  /\ ping vendor_local_unreachable (trace world_new) (RoborockLocalClient 0)
     = RaisesRoborock "timeout"
  /\ trace (snd (release vendor_local_unreachable world_fallen_back))
     = [Ping (RoborockLocalClient 0); AsyncDisconnect (RoborockMqttClient 1)].
Proof.
  split; [reflexivity|]. split; [reflexivity|].
  exact (proj1 (release_after_fallback_disconnects_cloud vendor_local_unreachable
                  world_new 0 "timeout" eq_refl eq_refl)).
Defined.

(** X11 at a device the local client cannot reach. *)
Lemma entity_made_before_fallback_sends_locally :
  api (coordinator world_new) = RoborockLocalClient 0
  /\ ping vendor_local_unreachable (trace world_new) (RoborockLocalClient 0)
     = RaisesRoborock "timeout"
  /\ api (coordinator world_fallen_back) = RoborockMqttClient 1
  /\ trace (snd (RoborockEntity.send vendor_local_unreachable "roborock"
                   (RoborockCoordinatedEntity.__init__ "dnd" (coordinator world_new))
                   (CommandStr "get_dnd_timer") ParamsNone world_fallen_back))
     = [Ping (RoborockLocalClient 0);
        SendCommand (RoborockLocalClient 0) (CommandStr "get_dnd_timer") ParamsNone].
Proof.
  split; [reflexivity|]. split; [reflexivity|].
  destruct (entity_keeps_client_of_construction vendor_local_unreachable "roborock"
              world_new 0 "timeout" "dnd" (CommandStr "get_dnd_timer") ParamsNone
              eq_refl eq_refl) as (Hapi & Hbefore & _).
  split; [exact Hapi | exact Hbefore].
Defined.

(** X13 at a new coordinator that receives the status of map flag 2. *)
Lemma update_after_listener_at_new :
  map_status status_of_flag_2 = Some 11%Z
  /\ get_prop vendor_no_prop
       (trace (snd (RoborockCoordinatedEntity._update_from_listener
                      (inl status_of_flag_2) world_new)))
       (api (coordinator
               (snd (RoborockCoordinatedEntity._update_from_listener
                       (inl status_of_flag_2) world_new))))
     = Returns None
  /\ current_map
       (coordinator
          (snd (_async_update_data vendor_no_prop
                  (snd (RoborockCoordinatedEntity._update_from_listener
                          (inl status_of_flag_2) world_new)))))
     = Some 2%Z.
Proof.
  split; [reflexivity|]. split; [reflexivity|].
  exact (proj2 (update_after_listener_uses_received_status vendor_no_prop world_new
                  status_of_flag_2 11 eq_refl eq_refl)).
Defined.

(** X14 at a flow without client that still holds an earlier error. *)
Lemma code_step_at_flow_without_client :
  code_input_of "123456" !! "code" = Some "123456"
  /\ _client (handler flow_without_client) = None
  /\ fst (async_step_code vendor_reachable "code" (Some (code_input_of "123456"))
            flow_without_client)
     = Returned (Form "code" (Required_str "code") (<["base" := "unknown"]> ∅))
  /\ flow_trace (snd (async_step_code vendor_reachable "code"
                        (Some (code_input_of "123456")) flow_without_client))
     = [].
Proof.
  split; [reflexivity|]. split; [reflexivity|].
  rewrite (code_step_without_client vendor_reachable "code" (code_input_of "123456")
             "123456" flow_without_client eq_refl eq_refl).
  split; reflexivity.
Defined.

(** X17 at a flow without username. *)
Lemma code_step_at_flow_without_username :
  code_input_of "123456" !! "code" = Some "123456"
  /\ _client (handler flow_without_username)
     = Some {| client_username := "user@example.com" |}
  /\ code_login vendor_reachable (flow_trace flow_without_username)
       "user@example.com" "123456"
     = Returns {| user_data_fields := [] |}
  /\ _username (handler flow_without_username) = None
  /\ fst (async_step_code vendor_reachable "code" (Some (code_input_of "123456"))
            flow_without_username)
     = Returned (Form "code" (Required_str "code") ∅).
Proof.
  split; [reflexivity|]. split; [reflexivity|]. split; [reflexivity|].
  split; [reflexivity|].
  rewrite (code_step_reprompts_without_error vendor_reachable "code"
             (code_input_of "123456") "123456"
             {| client_username := "user@example.com" |}
             {| user_data_fields := [] |} flow_without_username
             eq_refl eq_refl eq_refl (or_intror (or_introl eq_refl))).
  reflexivity.
Defined.

(** X18 at the flow the user step leaves. *)
Lemma code_step_at_valid_code :
  code_input_of "123456" !! "code" = Some "123456"
  /\ "user@example.com" <> ""
  /\ fst (async_step_code vendor_reachable "code" (Some (code_input_of "123456"))
            flow_after_user_step)
     = Returned (CreateEntry "user@example.com"
                   {| at_CONF_USERNAME := "user@example.com";
                      at_CONF_USER_DATA := {| user_data_fields := [] |};
                      at_CONF_BASE_URL := "https://euiot.roborock.com" |}).
Proof.
  split; [reflexivity|]. split; [discriminate|].
  rewrite (code_step_creates_entry_for_valid_code vendor_reachable "code"
             (code_input_of "123456") "123456"
             {| client_username := "user@example.com" |}
             {| user_data_fields := [] |} "user@example.com" flow_after_user_step
             eq_refl eq_refl eq_refl eq_refl eq_refl ltac:(discriminate)).
  reflexivity.
Defined.

(** X19 at a vendor that refuses the email. *)
Lemma user_step_at_refused_email :
  user_input_of "User@Example.com" !! "username" = Some "User@Example.com"
  /\ unique_id_free (lower_ascii "User@Example.com") = Returned tt
  /\ fst (async_step_user vendor_reachable "username" "code" lower_ascii
            unique_id_free unique_id_free code_refused
            (Some (user_input_of "User@Example.com")) wizard_new)
     = Returned (Form "user" (Required_str "username")
                   (<["base" := "invalid_email"]> ∅))
  /\ _client (handler (flow (snd (async_step_user vendor_reachable "username" "code"
                                    lower_ascii unique_id_free unique_id_free
                                    code_refused
                                    (Some (user_input_of "User@Example.com"))
                                    wizard_new))))
     = None.
Proof.
  split; [reflexivity|]. split; [reflexivity|].
  destruct (user_step_translates_request_failure vendor_reachable "username" "code"
              lower_ascii unique_id_free unique_id_free code_refused
              (user_input_of "User@Example.com") "User@Example.com" wizard_new
              eq_refl eq_refl eq_refl) as [Hinvalid _].
  destruct (Hinvalid "invalid email" eq_refl) as (Hform & _ & _ & Hclient & _).
  split; [exact Hform | exact Hclient].
Defined.

(** X20 at a vendor that sends the code. *)
Lemma user_step_at_code_sent :
  user_input_of "User@Example.com" !! "username" = Some "User@Example.com"
  /\ code_sent (requested wizard_new) "User@Example.com" = Returns tt
  /\ fst (async_step_user vendor_reachable "username" "code" lower_ascii
            unique_id_free unique_id_free code_sent
            (Some (user_input_of "User@Example.com")) wizard_new)
     = Returned (Form "code" (Required_str "code") ∅)
  /\ _client (handler (flow (snd (async_step_user vendor_reachable "username" "code"
                                    lower_ascii unique_id_free unique_id_free
                                    code_sent
                                    (Some (user_input_of "User@Example.com"))
                                    wizard_new))))
     = Some {| client_username := "User@Example.com" |}.
Proof.
  split; [reflexivity|]. split; [reflexivity|].
  destruct (user_step_proceeds_to_code_form vendor_reachable "username" "code"
              lower_ascii unique_id_free unique_id_free code_sent
              (user_input_of "User@Example.com") "User@Example.com" wizard_new
              eq_refl eq_refl eq_refl eq_refl) as (Hform & _ & _ & Hclient & _).
  split; [exact Hform | exact Hclient].
Defined.

(** X22 from a new flow to the entry. *)
Lemma user_then_code_at_new_flow :
  user_input_of "User@Example.com" !! "username" = Some "User@Example.com"
  /\ code_input_of "123456" !! "code" = Some "123456"
  /\ "User@Example.com" <> ""
  /\ fst (lift (async_step_code vendor_reachable "code" (Some (code_input_of "123456")))
            (snd (async_step_user vendor_reachable "username" "code" lower_ascii
                    unique_id_free unique_id_free code_sent
                    (Some (user_input_of "User@Example.com")) wizard_new)))
     = Returned (CreateEntry "User@Example.com"
                   {| at_CONF_USERNAME := "User@Example.com";
                      at_CONF_USER_DATA := {| user_data_fields := [] |};
                      at_CONF_BASE_URL := "https://euiot.roborock.com" |}).
Proof.
  split; [reflexivity|]. split; [reflexivity|]. split; [discriminate|].
  exact (user_then_code_creates_entry vendor_reachable "username" "code" lower_ascii
           unique_id_free unique_id_free code_sent
           (user_input_of "User@Example.com") "User@Example.com"
           (code_input_of "123456") "123456" {| user_data_fields := [] |} wizard_new
           eq_refl eq_refl eq_refl eq_refl eq_refl eq_refl eq_refl
           ltac:(discriminate)).
Defined.

(** X24 at a [hass] without data. *)
Lemma oralb_unload_after_setup_at_new :
  OralB.unique_id oralb_entry = Some "78:DB:2F:C2:48:BE"
  /\ fst (OralB.async_unload_entry "oralb" platforms_unload oralb_entry
            (snd (OralB.async_setup_entry "oralb" platforms_forward oralb_entry
                    hass_new)))
     = Returned true
  /\ OralB.hass_data
       (snd (OralB.async_unload_entry "oralb" platforms_unload oralb_entry
               (snd (OralB.async_setup_entry "oralb" platforms_forward oralb_entry
                       hass_new)))) !! "oralb"
     = Some ∅.
Proof.
  split; [reflexivity|].
  destruct (oralb_unload_after_setup "oralb" platforms_forward platforms_unload
              oralb_entry "78:DB:2F:C2:48:BE" hass_new eq_refl eq_refl)
    as (Hret & _ & Hsame & _).
  split; [exact Hret | exact (Hsame eq_refl)].
Defined.

Example lower_ascii_of_mixed_case :
  lower_ascii "User@Example.com" = "user@example.com".
Proof. reflexivity. Qed.

Example user_step_aborts_when_configured :
  async_step_user vendor_reachable "username" "code" lower_ascii
    unique_id_free unique_id_taken code_sent
    (Some (user_input_of "User@Example.com")) wizard_new
  = (Raised (OtherException "AbortFlow"), on_flow (set_errors ∅) wizard_new).
Proof. reflexivity. Qed.

Example oralb_setup_keeps_coordinator_when_forwarding_raises :
  OralB.hass_data
    (snd (OralB.async_setup_entry "oralb"
            (fun _ _ => Raised (OtherException "ConfigEntryNotReady"))
            oralb_entry hass_new)) !! "oralb"
  = Some (<["entry-1" := {| OralB.address := "78:DB:2F:C2:48:BE" |}]> ∅).
Proof. reflexivity. Qed.

(** C2 as stated fails: the fetch returns, the needed props are set and no
    [RoborockException] is raised, but a recovery read raises
    [TimeoutError]; the update raises it, [is_available] stays false and
    nothing is returned. *)
Lemma update_does_not_recover_when_reads_time_out :
  ~ recovers_unless_RoborockException vendor_reads_time_out world_unavailable.
Proof.
  intros H. unfold recovers_unless_RoborockException in H. cbv zeta in H.
  assert (Hav : is_available
                  (snd (_async_update_data vendor_reads_time_out world_unavailable))
                  (api (coordinator world_unavailable)) = true).
  { apply H; [reflexivity | discriminate | discriminate | reflexivity]. }
  discriminate Hav.
Qed.

(** C7 as stated fails: [code_login] raises [CancelledError], which
    [except Exception] does not catch; the step raises it and sets no
    error. *)
Lemma cancelled_login_sets_no_error :
  ~ any_other_exception_is_unknown vendor_login_cancelled "code"
      (code_input_of "123456") flow_after_user_step.
Proof.
  intros H.
  destruct (H "123456" {| client_username := "user@example.com" |} "CancelledError"
              eq_refl eq_refl eq_refl) as [_ Hform].
  vm_compute in Hform. discriminate.
Qed.

(** C8 as stated fails: [get_prop] returns None, so no status is fetched,
    but the listener has stored the status of map flag 2 since the last
    poll; the update changes [current_map] from 1 to 2. *)
Lemma current_map_changes_when_nothing_fetched :
  ~ current_map_from_returned_status vendor_no_prop world_after_listener.
Proof.
  unfold current_map_from_returned_status. vm_compute. discriminate.
Qed.

Example cancelled_login_is_raised :
  fst (async_step_code vendor_login_cancelled "code"
         (Some (code_input_of "123456")) flow_after_user_step)
  = Raised (OtherException "CancelledError").
Proof. reflexivity. Qed.

Example current_map_before_and_after_empty_fetch :
  current_map (coordinator world_after_listener) = Some 1%Z
  /\ current_map (coordinator (snd (_async_update_data vendor_no_prop
                                      world_after_listener)))
     = Some 2%Z.
Proof. split; reflexivity. Qed.
